(** * backend-credit: amortization and credit-scoring engines

    A shallow embedding of the loan model (models/Loan.js: the virtuals
    [totalRepayment] and [monthlyPayment] and the method
    [generateRepaymentSchedule]) and of the two credit-report handlers of
    the loan routes, with the properties their specification states.

    Numbers.  A JavaScript Number is an IEEE-754 double.  Here a finite
    Number is an exact rational and every operation is computed exactly;
    the one non-finite outcome the code can reach, a division by zero, is
    kept explicit: a [number] is [Some q] for the finite value [q] and
    [None] for a result that is not a finite number (NaN, or an infinity
    that the code only ever multiplies or divides on, so that it stays
    non-finite).  The properties below are therefore stated up to the
    rounding of doubles, and those of the amortization on the range of
    rates and terms that the schema admits.  Where the rounding itself
    decides a property, the order of a sum, module [Double] gives the
    scoring function on IEEE-754 doubles. *)

From Stdlib Require Import ZArith QArith Qround Qpower Qminmax Lia Lqa Permutation.
From Stdlib Require Import Uint63 Floats.
From stdpp Require Import base option list strings pretty gmap.

Local Open Scope Z_scope.

(** ** JavaScript numbers *)

Definition number : Type := option Q.

Module Num.

Definition lift2 (f : Q -> Q -> Q) (a b : number) : number :=
  match a, b with
  | Some x, Some y => Some (f x y)
  | _, _ => None
  end.

Definition add : number -> number -> number := lift2 Qplus.
Definition sub : number -> number -> number := lift2 Qminus.
Definition mul : number -> number -> number := lift2 Qmult.

(** [a / b]: a zero divisor gives NaN or an infinity. *)
Definition div (a b : number) : number :=
  match a, b with
  | Some x, Some y => if Qeq_bool y 0 then None else Some (x / y)%Q
  | _, _ => None
  end.

(** [a > b] and [a >= b]: false as soon as one side is NaN. *)
Definition gt (a b : number) : bool :=
  match a, b with
  | Some x, Some y => negb (Qle_bool x y)
  | _, _ => false
  end.

Definition ge (a b : number) : bool :=
  match a, b with
  | Some x, Some y => Qle_bool y x
  | _, _ => false
  end.

Definition of_Z (z : Z) : number := Some (inject_Z z).
Definition of_nat (n : nat) : number := Some (inject_Z (Z.of_nat n)).

End Num.

Declare Scope num_scope.
Delimit Scope num_scope with num.
Bind Scope num_scope with number.
Infix "+" := Num.add : num_scope.
Infix "-" := Num.sub : num_scope.
Infix "*" := Num.mul : num_scope.
Infix "/" := Num.div : num_scope.

Module Math.

(** [Math.pow(b, e)] for an integer exponent. *)
Definition pow (b : number) (e : Z) : number :=
  match b with
  | Some x => if (e <? 0) && Qeq_bool x 0 then None else Some (x ^ e)%Q
  | None => if e =? 0 then Some 1%Q else None
  end.

(** [Math.round]: the nearest integer, a tie going up. *)
Definition round (a : number) : number :=
  match a with
  | Some x => Some (inject_Z (Qfloor (x + (1 # 2))%Q))
  | None => None
  end.

Definition min (a b : number) : number :=
  Num.lift2 (fun x y => if Qle_bool x y then x else y) a b.

Definition max (a b : number) : number :=
  Num.lift2 (fun x y => if Qle_bool x y then y else x) a b.

End Math.

(** [x || 0] on a Number field that may be absent. *)
Definition orZero (x : option Q) : Q := default 0%Q x.

(** ** Dates

    The calendar day of a [Date] in the local time of the server;
    [month] is zero-based as in JavaScript.  The time within the day is
    left out: [setMonth] keeps it except where a daylight-saving
    transition of the zone moves it, within the same day. *)

Record Date : Type := mkDate {
  year : Z;
  month : Z;
  day : Z
}.

Definition isLeapYear (y : Z) : bool :=
  ((y mod 4 =? 0) && negb (y mod 100 =? 0)) || (y mod 400 =? 0).

Definition daysInMonth (y m : Z) : Z :=
  if m =? 1 then (if isLeapYear y then 29 else 28)
  else if (m =? 3) || (m =? 5) || (m =? 8) || (m =? 10) then 30
  else 31.

Definition getMonth (d : Date) : Z := month d.

(** [d.setMonth(m)]: the month is set to [m] and the date is normalised:
    a month outside 0..11 carries into the year, and a day that the
    target month does not have carries into the following month. *)
Definition setMonth (d : Date) (m : Z) : Date :=
  let y' := year d + m / 12 in
  let m' := m mod 12 in
  let dim := daysInMonth y' m' in
  if day d <=? dim then mkDate y' m' (day d)
  else
    let k := y' * 12 + m' + 1 in
    mkDate (k / 12) (k mod 12) (day d - dim).

(** Calendar months since year 0, and the order on dates. *)
Definition monthIndex (d : Date) : Z := year d * 12 + month d.

Definition dateLt (a b : Date) : Prop :=
  monthIndex a < monthIndex b
  \/ (monthIndex a = monthIndex b /\ day a < day b).

Definition validDate (d : Date) : Prop :=
  0 <= month d <= 11 /\ 1 <= day d <= daysInMonth (year d) (month d).

(** ** The loan model (models/Loan.js) *)

Record Installment : Type := mkInstallment {
  dueDate : Date;
  amount : number;
  inst_status : string
}.

(** An entry of [paymentHistory]: the first report handler reads
    [p.status], the second compares [p] itself with a string. *)
Inductive PaymentEntry : Type :=
  | EntryString (s : string)
  | EntryObject (status : option string).

(** A loan, with the fields the two engines read.  The fields the schema
    requires or defaults are always present, so that
    [loan.loanAmount || 0] is [loanAmount loan]. *)
Record Loan : Type := mkLoan {
  loanAmount : Q;
  loanPurpose : string;
  loanTerm : Z;
  interestRate : Q;
  lenderName : string;
  status : string;
  repaymentSchedule : list Installment;
  (* read by the routes with a fallback, not declared by the schema *)
  paymentHistory : option (list PaymentEntry);
  creditLimit : option Q;
  loanType : option string
}.

(** The two virtuals.  Over the rationals the formula is finite for every
    positive rate; the doubles of the code agree with it, up to rounding,
    on the range the schema admits (rate 1 to 25, term 1 to 60), and not
    for rates so small or so large that [1 + r] rounds to 1 or the power
    overflows.  The properties of these virtuals are stated on the
    schema's range. *)
Definition totalRepayment (this : Loan) : number :=
  let monthlyInterestRate :=
    (Some (interestRate this) / Num.of_Z 100 / Num.of_Z 12)%num in
  let payment :=
    (Some (loanAmount this)
     * (monthlyInterestRate
        * Math.pow (Num.of_Z 1 + monthlyInterestRate) (loanTerm this))
     / (Math.pow (Num.of_Z 1 + monthlyInterestRate) (loanTerm this)
        - Num.of_Z 1))%num in
  (payment * Num.of_Z (loanTerm this))%num.

Definition monthlyPayment (this : Loan) : number :=
  (totalRepayment this / Num.of_Z (loanTerm this))%num.

(** [startDate] is the clock reading [new Date()] of the call; every
    [dueDate] is a fresh copy of it, so no installment shares a date
    object with another.  The loop [for (i = 1; i <= loanTerm; i++)]
    visits [seqZ 1 loanTerm]. *)
Definition generateRepaymentSchedule (startDate : Date) (this : Loan) : Loan :=
  let monthlyPayment := monthlyPayment this in
  let schedule :=
    (fun i => mkInstallment (setMonth startDate (getMonth startDate + i))
                            monthlyPayment "Pending")
      <$> seqZ 1 (loanTerm this) in
  mkLoan (loanAmount this) (loanPurpose this) (loanTerm this)
         (interestRate this) (lenderName this) (status this)
         schedule
         (paymentHistory this) (creditLimit this) (loanType this).

(** [s.includes(searchString)] *)
Definition includes (s searchString : string) : bool :=
  match String.index 0 searchString s with
  | Some _ => true
  | None => false
  end.

(** The setter of [loanAmount], [val => Math.round(val * 100) / 100], on
    a finite value: the divisor is the constant 100. *)
Definition setLoanAmount (val : Q) : Q :=
  (inject_Z (Qfloor (val * 100 + (1 # 2))) / 100)%Q.

Definition withInterestRate (rate : Q) (this : Loan) : Loan :=
  mkLoan (loanAmount this) (loanPurpose this) (loanTerm this)
         rate (lenderName this) (status this)
         (repaymentSchedule this)
         (paymentHistory this) (creditLimit this) (loanType this).

(** The pre-save hook; [lenderNameModified] is
    [this.isModified('lenderName')]. *)
Definition preSave (lenderNameModified : bool) (this : Loan) : Loan :=
  if lenderNameModified then
    if includes (lenderName this) "Premium" then withInterestRate (65 # 10) this
    else if includes (lenderName this) "Standard" then withInterestRate (85 # 10) this
    else this
  else this.

(** ** The loan routes

    [loans.reduce(f, init)] is a left fold. *)
Definition reduce {A B : Type} (f : B -> A -> B) (init : B) (loans : list A) : B :=
  foldl f init loans.

(** [n || 1] on a length. *)
Definition orOne (n : nat) : nat :=
  match n with O => 1%nat | S _ => n end.

(** [s || dflt] on a string: the empty string is falsy. *)
Definition orString (s dflt : string) : string :=
  if bool_decide (s = "") then dflt else s.

Definition isActive (loan : Loan) : bool :=
  bool_decide (status loan = "Active").

Definition isActiveCredit (loan : Loan) : bool :=
  bool_decide (status loan = "Active") && bool_decide (loanType loan = Some "Credit").

(** The text of an integral Number inside a template string. *)
Definition numberToString (a : number) : string :=
  match a with
  | Some q => pretty (Qfloor q)
  | None => "NaN"
  end.

Record Account : Type := mkAccount {
  acc_name : string;
  acc_type : string;
  acc_status : string;
  acc_balance : Q;
  acc_paymentHistory : list PaymentEntry;
  acc_creditLimit : Q;
  acc_loanType : string
}.

(** The entries of [accounts] that both handlers copy from the loan
    (the stored payment and the text renderings of rate, dates and terms
    are left out). *)
Definition account (loan : Loan) : Account :=
  mkAccount (orString (lenderName loan) "Personal Loan")
            (if bool_decide (loanPurpose loan = "") then "Personal Loan"
             else loanPurpose loan +:+ " Loan")
            (orString (status loan) "Pending")
            (loanAmount loan)
            (default [] (paymentHistory loan))
            (orZero (creditLimit loan))
            (default "Term" (loanType loan)).

(** The body of a credit-report response; [None] is a key the response
    does not carry. *)
Record CreditReport : Type := mkReport {
  creditScore : number;
  scoreRange : string;
  accounts : list Account;
  inquiries : option (list string);
  publicRecords : option (list string);
  creditUtilization : string;
  totalDebt : number;
  availableCredit : number;
  openAccounts : nat;
  lastUpdated : option Date
}.

Definition scoreRangeOf (creditScore : number) : string :=
  if Num.ge creditScore (Num.of_Z 720) then "Excellent"
  else if Num.ge creditScore (Num.of_Z 650) then "Good"
  else if Num.ge creditScore (Num.of_Z 580) then "Fair"
  else "Poor".

(** The response sent when the user has no loan. *)
Definition noCreditHistory : CreditReport :=
  mkReport (Num.of_Z 0) "No Credit History" [] (Some []) (Some []) "0%"
           (Num.of_Z 0) (Num.of_Z 0) 0 None.

(** *** First handler: GET /loans/credit-report, weighted factors *)
Module LoanRoutes.

Record Factor : Type := mkFactor { weight : Q; value : number }.

(** [p.status === 'paid'] *)
Definition isPaid (p : PaymentEntry) : bool :=
  match p with
  | EntryObject (Some s) => bool_decide (s = "paid")
  | _ => false
  end.

(** [paid / total] of one loan. *)
Definition paymentRatio (loan : Loan) : number :=
  let paid := length (List.filter isPaid (default [] (paymentHistory loan))) in
  let total := orOne (length (default [] (paymentHistory loan))) in
  (Num.of_nat paid / Num.of_nat total)%num.

(** One step of the payment-history reduction. *)
Definition paymentHistoryStep (sum : number) (loan : Loan) : number :=
  (sum + paymentRatio loan)%num.

Definition paymentHistoryValue (loans : list Loan) : number :=
  (reduce paymentHistoryStep (Num.of_Z 0) loans / Num.of_nat (length loans))%num.

Definition totalDebtOf (loans : list Loan) : number :=
  reduce (fun sum loan =>
            if isActive loan then (sum + Some (loanAmount loan))%num else sum)
         (Num.of_Z 0) loans.

Definition totalCreditOf (loans : list Loan) : number :=
  reduce (fun sum loan =>
            if isActiveCredit loan
            then (sum + Some (orZero (creditLimit loan)))%num else sum)
         (Num.of_Z 0) loans.

Definition creditUtilizationValue (loans : list Loan) : number :=
  let totalDebt := totalDebtOf loans in
  let totalCredit := totalCreditOf loans in
  let utilization :=
    if Num.gt totalCredit (Num.of_Z 0) then (totalDebt / totalCredit)%num
    else Num.of_Z 0 in
  (Num.of_Z 1 - Math.min utilization (Num.of_Z 1))%num.

Definition creditMixValue (loans : list Loan) : number :=
  (Num.of_nat (size (list_to_set (loanPurpose <$> loans) : gset string))
   / Num.of_Z 5)%num.

(** The keys are the own properties of the object; no status of the
    schema names an inherited one. *)
Definition statusWeights : gmap string Z :=
  {[ "Paid" := 5; "Active" := 3; "Defaulted" := -10; "Pending" := 1 ]}.

(** [statusWeights[loan.status] || 0] *)
Definition statusWeight (loan : Loan) : Z :=
  default 0 (statusWeights !! status loan).

Definition accountStatusValue (loans : list Loan) : number :=
  (reduce (fun sum loan => (sum + Num.of_Z (statusWeight loan))%num)
          (Num.of_Z 0) loans
   / Num.of_nat (length loans))%num.

(** [Object.values(scoreFactors)], in insertion order. *)
Definition scoreFactors (loans : list Loan) : list Factor :=
  [ mkFactor (4 # 10) (paymentHistoryValue loans);
    mkFactor (2 # 10) (creditUtilizationValue loans);
    mkFactor (1 # 10) (creditMixValue loans);
    mkFactor (3 # 10) (accountStatusValue loans) ].

Definition baseScore : number := Num.of_Z 300.
Definition maxScore : number := Num.of_Z 850.

Definition weightedScore (loans : list Loan) : number :=
  reduce (fun sum factor =>
            (sum + value factor * Some (weight factor) * (maxScore - baseScore))%num)
         (Num.of_Z 0) (scoreFactors loans).

Definition calculateCreditScore (loans : list Loan) : number :=
  Math.min (Math.max (Math.round (baseScore + weightedScore loans)%num)
                     (Num.of_Z 300))
           (Num.of_Z 850).

Definition availableCreditOf (loans : list Loan) : number :=
  reduce (fun sum loan =>
            if isActiveCredit loan
            then (sum + Math.max (Num.of_Z 0)
                          (Some (orZero (creditLimit loan))
                           - Some (loanAmount loan)))%num
            else sum)
         (Num.of_Z 0) loans.

Definition creditUtilizationOf (totalDebt availableCredit : number) : string :=
  if Num.gt totalDebt (Num.of_Z 0)
  then numberToString
         (Math.round ((totalDebt / (totalDebt + availableCredit))
                      * Num.of_Z 100)%num) +:+ "%"
  else "0%".

(** The handler after the query, with the scoring function it calls as
    a parameter; [now] is the clock reading of [lastUpdated]. *)
Definition creditReportWith (calculate : list Loan -> number)
    (now : Date) (loans : list Loan) : CreditReport :=
  if bool_decide (length loans = 0%nat) then noCreditHistory
  else
    let creditScore := calculate loans in
    let totalDebt := totalDebtOf loans in
    let availableCredit := availableCreditOf loans in
    mkReport creditScore (scoreRangeOf creditScore) (account <$> loans)
             None None
             (creditUtilizationOf totalDebt availableCredit)
             totalDebt availableCredit (length loans) (Some now).

Definition creditReport : Date -> list Loan -> CreditReport :=
  creditReportWith calculateCreditScore.

(** GET /loans/my-loans: the payment figures of an enhanced loan. *)
Definition paidPayments (loan : Loan) : nat :=
  match paymentHistory loan with
  | Some h => length (List.filter isPaid h)
  | None => 0%nat
  end.

Definition totalPayments (loan : Loan) : nat :=
  match paymentHistory loan with
  | Some h => length h
  | None => 0%nat
  end.

Definition paymentPercentage (loan : Loan) : number :=
  if (0 <? totalPayments loan)%nat
  then Math.round (Num.of_nat (paidPayments loan)
                   / Num.of_nat (totalPayments loan) * Num.of_Z 100)%num
  else Num.of_Z 0.

(** [loan.repaymentSchedule.find(p => p.status === 'Pending')] *)
Definition nextPayment (loan : Loan) : option Installment :=
  List.find (fun p => bool_decide (inst_status p = "Pending"))
            (repaymentSchedule loan).

Definition nextPaymentDate (loan : Loan) : option Date :=
  dueDate <$> nextPayment loan.

End LoanRoutes.

(** *** Second handler: the same route in the other routes file *)
Module LoanRoutesAlt.

(** [p === 'paid'] *)
Definition isPaid (p : PaymentEntry) : bool :=
  match p with
  | EntryString s => bool_decide (s = "paid")
  | _ => false
  end.

Definition paymentHistoryStep (sum : number) (loan : Loan) : number :=
  let paid := length (List.filter isPaid (default [] (paymentHistory loan))) in
  let total := orOne (length (default [] (paymentHistory loan))) in
  (sum + (Num.of_nat paid / Num.of_nat total))%num.

Definition countStatus (s : string) (loans : list Loan) : nat :=
  length (List.filter (fun loan => bool_decide (status loan = s)) loans).

Definition calculateCreditScore (loans : list Loan) : number :=
  if bool_decide (length loans = 0%nat) then Num.of_Z 0
  else
    let paymentHistoryScore :=
      (reduce paymentHistoryStep (Num.of_Z 0) loans
       / Num.of_nat (length loans) * Num.of_Z 400)%num in
    let totalDebt := LoanRoutes.totalDebtOf loans in
    let totalCredit := LoanRoutes.totalCreditOf loans in
    let utilization :=
      if Num.gt totalCredit (Num.of_Z 0) then (totalDebt / totalCredit)%num
      else Num.of_Z 0 in
    let utilizationScore :=
      ((Num.of_Z 1 - Math.min utilization (Num.of_Z 1)) * Num.of_Z 200)%num in
    let loanTypes : gset string := list_to_set (loanPurpose <$> loans) in
    let mixScore := (Num.of_nat (size loanTypes) * Num.of_Z 10)%num in
    let paidLoans := countStatus "Paid" loans in
    let activeLoans := countStatus "Active" loans in
    let defaultedLoans := countStatus "Defaulted" loans in
    let statusScore :=
      (Num.of_nat paidLoans * Num.of_Z 5 + Num.of_nat activeLoans * Num.of_Z 3
       - Num.of_nat defaultedLoans * Num.of_Z 10)%num in
    let score :=
      (paymentHistoryScore + utilizationScore + mixScore + statusScore)%num in
    Math.min (Math.max (Math.round score) (Num.of_Z 300)) (Num.of_Z 850).

Definition availableCreditOf (loans : list Loan) : number :=
  reduce (fun sum loan =>
            if isActiveCredit loan
            then (sum + Some (orZero (creditLimit loan))
                  - Some (loanAmount loan))%num
            else sum)
         (Num.of_Z 0) loans.

Definition creditUtilizationOf (totalDebt availableCredit : number) : string :=
  if Num.gt availableCredit (Num.of_Z 0)
  then numberToString
         (Math.round ((totalDebt / (totalDebt + availableCredit))
                      * Num.of_Z 100)%num) +:+ "%"
  else "0%".

Definition creditReport (loans : list Loan) : CreditReport :=
  if bool_decide (length loans = 0%nat) then noCreditHistory
  else
    let creditScore := calculateCreditScore loans in
    let totalDebt := LoanRoutes.totalDebtOf loans in
    let availableCredit := availableCreditOf loans in
    mkReport creditScore (scoreRangeOf creditScore) (account <$> loans)
             (Some []) (Some [])
             (creditUtilizationOf totalDebt availableCredit)
             totalDebt availableCredit (length loans) None.

(** GET /loans/my-loans of this file. *)
Definition paidPayments (loan : Loan) : nat :=
  match paymentHistory loan with
  | Some h => length (List.filter isPaid h)
  | None => 0%nat
  end.

Definition paymentPercentage (loan : Loan) : number :=
  if (0 <? LoanRoutes.totalPayments loan)%nat
  then Math.round (Num.of_nat (paidPayments loan)
                   / Num.of_nat (LoanRoutes.totalPayments loan) * Num.of_Z 100)%num
  else Num.of_Z 0.

End LoanRoutesAlt.

(** *** The scoring of the first handler on doubles

    The same function with the arithmetic of the code: every Number is
    an IEEE-754 double ([float]), every operation rounds to nearest, and
    the reductions add in the order of the list. *)
Module Double.

(** An integer as a double (exact below 2^53). *)
Definition of_Z (z : Z) : float :=
  match z with
  | Z0 => PrimFloat.zero
  | Zpos _ => PrimFloat.of_uint63 (Uint63.of_Z z)
  | Zneg p => PrimFloat.opp (PrimFloat.of_uint63 (Uint63.of_Z (Zpos p)))
  end.

Definition of_nat (n : nat) : float := of_Z (Z.of_nat n).

(** The double nearest to a decimal fraction, for a numerator and a
    denominator below 2^53: the division rounds correctly. *)
Definition of_Q (q : Q) : float :=
  PrimFloat.div (of_Z (Qnum q)) (of_Z (Zpos (Qden q))).

(** The integer a double stands for, if it is one. *)
Definition to_Z (x : float) : option Z :=
  match Prim2SF x with
  | S754_zero _ => Some 0
  | S754_finite s m e =>
      let n := if s then Zneg m else Zpos m in
      if 0 <=? e then Some (n * 2 ^ e)
      else if Zpos m mod 2 ^ (- e) =? 0 then Some (n / 2 ^ (- e)) else None
  | _ => None
  end.

(** [Math.round]: the integer nearest to the exact value of the double,
    a tie going up; [-0] for a value in [-0.5, -0]. *)
Definition round (x : float) : float :=
  match Prim2SF x with
  | S754_finite s m e =>
      if 0 <=? e then x
      else
        let n := if s then Zneg m else Zpos m in
        let r := (2 * n + 2 ^ (- e)) / (2 * 2 ^ (- e)) in
        if (r =? 0) && s then PrimFloat.neg_zero else of_Z r
  | _ => x
  end.

(** [Math.min] and [Math.max]: NaN if an argument is NaN, and [-0]
    below [+0]. *)
Definition min (a b : float) : float :=
  if PrimFloat.is_nan a || PrimFloat.is_nan b then PrimFloat.nan
  else if PrimFloat.ltb a b then a
  else if PrimFloat.ltb b a then b
  else if PrimFloat.get_sign a then a else b.

Definition max (a b : float) : float :=
  if PrimFloat.is_nan a || PrimFloat.is_nan b then PrimFloat.nan
  else if PrimFloat.ltb a b then b
  else if PrimFloat.ltb b a then a
  else if PrimFloat.get_sign a then b else a.

Record Factor : Type := mkFactor { weight : float; value : float }.

(** The four reductions over the loans, each adding in list order. *)
Definition paymentRatioSum (loans : list Loan) : float :=
  reduce (fun sum loan =>
            let paid := length (List.filter LoanRoutes.isPaid
                                  (default [] (paymentHistory loan))) in
            let total := orOne (length (default [] (paymentHistory loan))) in
            PrimFloat.add sum (PrimFloat.div (of_nat paid) (of_nat total)))
         PrimFloat.zero loans.

Definition paymentHistoryValue (loans : list Loan) : float :=
  PrimFloat.div (paymentRatioSum loans) (of_nat (length loans)).

Definition totalDebtOf (loans : list Loan) : float :=
  reduce (fun sum loan =>
            if isActive loan then PrimFloat.add sum (of_Q (loanAmount loan))
            else sum)
         PrimFloat.zero loans.

Definition totalCreditOf (loans : list Loan) : float :=
  reduce (fun sum loan =>
            if isActiveCredit loan
            then PrimFloat.add sum (of_Q (orZero (creditLimit loan)))
            else sum)
         PrimFloat.zero loans.

Definition creditUtilizationValue (loans : list Loan) : float :=
  let totalDebt := totalDebtOf loans in
  let totalCredit := totalCreditOf loans in
  let utilization :=
    if PrimFloat.ltb PrimFloat.zero totalCredit
    then PrimFloat.div totalDebt totalCredit
    else PrimFloat.zero in
  PrimFloat.sub PrimFloat.one (min utilization PrimFloat.one).

Definition creditMixValue (loans : list Loan) : float :=
  PrimFloat.div
    (of_nat (size (list_to_set (loanPurpose <$> loans) : gset string)))
    (of_Z 5).

Definition statusWeightSum (loans : list Loan) : float :=
  reduce (fun sum loan =>
            PrimFloat.add sum (of_Z (LoanRoutes.statusWeight loan)))
         PrimFloat.zero loans.

Definition accountStatusValue (loans : list Loan) : float :=
  PrimFloat.div (statusWeightSum loans) (of_nat (length loans)).

Definition scoreFactors (loans : list Loan) : list Factor :=
  [ mkFactor (of_Q (4 # 10)) (paymentHistoryValue loans);
    mkFactor (of_Q (2 # 10)) (creditUtilizationValue loans);
    mkFactor (of_Q (1 # 10)) (creditMixValue loans);
    mkFactor (of_Q (3 # 10)) (accountStatusValue loans) ].

Definition baseScore : float := of_Z 300.
Definition maxScore : float := of_Z 850.

Definition weightedScore (loans : list Loan) : float :=
  reduce (fun sum factor =>
            PrimFloat.add sum
              (PrimFloat.mul (PrimFloat.mul (value factor) (weight factor))
                             (PrimFloat.sub maxScore baseScore)))
         PrimFloat.zero (scoreFactors loans).

Definition calculateCreditScore (loans : list Loan) : float :=
  min (max (round (PrimFloat.add baseScore (weightedScore loans))) (of_Z 300))
      (of_Z 850).

End Double.

(** ** The authentication middleware (middleware/authenticate.js) *)
Module Auth.

(** [s.replace(pattern, replacement)] for a string pattern: the first
    occurrence only. *)
Definition replaceFirst (pattern replacement s : string) : string :=
  match String.index 0 pattern s with
  | Some i =>
      String.substring 0 i s +:+ replacement
      +:+ String.substring (i + String.length pattern)
            (String.length s - (i + String.length pattern)) s
  | None => s
  end.

Record Response : Type := mkResponse {
  res_status : nat;
  res_success : bool;
  res_message : string
}.

(** The payload of a verified token. *)
Record Decoded : Type := mkDecoded {
  decoded_id : string;
  decoded_role : option string
}.

Section Middleware.

(** The documents of the two collections, the verification of a token
    against the secret ([None] when [jwt.verify] throws) and the two
    lookups by id ([None] for [null]). *)
Variable Account : Type.
Variable verify : string -> option Decoded.
Variables findStaff findUser : string -> option Account.

Record Request : Type := mkRequest {
  authorization : option string;
  user : option Account;
  role : option string
}.

(** A middleware either calls [next()] with the request or sends a
    response. *)
Inductive Outcome : Type :=
  | Next (req : Request)
  | Send (res : Response).

Definition authenticate (req : Request) : Outcome :=
  let token := replaceFirst "Bearer " "" <$> authorization req in
  match token with
  | None | Some "" =>
      Send (mkResponse 401 false "No token provided. Authorization denied.")
  | Some token =>
      match verify token with
      | None => Send (mkResponse 401 false "Invalid or expired token.")
      | Some decoded =>
          let user :=
            if bool_decide (decoded_role decoded = Some "admin")
            then findStaff (decoded_id decoded)
            else findUser (decoded_id decoded) in
          match user with
          | None => Send (mkResponse 401 false "User or Admin not found.")
          | Some account =>
              Next (mkRequest (authorization req) (Some account)
                              (decoded_role decoded))
          end
      end
  end.

Definition adminOnly (req : Request) : Outcome :=
  if bool_decide (role req = Some "admin") then Next req
  else Send (mkResponse 403 false "Access denied. Admins only.").

Definition userOnly (req : Request) : Outcome :=
  if bool_decide (role req = Some "user") then Next req
  else Send (mkResponse 403 false "Access denied. Users only.").

End Middleware.

Arguments mkRequest {Account}.
Arguments authorization {Account}.
Arguments user {Account}.
Arguments role {Account}.
Arguments Next {Account}.
Arguments Send {Account}.
Arguments authenticate {Account}.
Arguments adminOnly {Account}.
Arguments userOnly {Account}.

End Auth.

(** ** The statements of the specification *)

(** The constraints of the schema on the terms of a loan. *)
Definition validatedLoan (loan : Loan) : Prop :=
  (1000 <= loanAmount loan <= 1000000)%Q
  /\ 1 <= loanTerm loan <= 60
  /\ (1 <= interestRate loan <= 25)%Q.

(** The schedule a loan carries after [generateRepaymentSchedule]. *)
Definition scheduleOf (startDate : Date) (loan : Loan) : list Installment :=
  repaymentSchedule (generateRepaymentSchedule startDate loan).

(** The fixed-payment annuity formula, with the monthly rate
    [r = annualRatePercent/100/12]. *)
Definition monthlyRate (annualRatePercent : Q) : Q :=
  (annualRatePercent / 100 / 12)%Q.

Definition annuityPayment (principal annualRatePercent : Q) (n : Z) : Q :=
  let r := monthlyRate annualRatePercent in
  (principal * (r * (1 + r) ^ n) / ((1 + r) ^ n - 1))%Q.

(** A Number rounded to two decimals, in hundredths. *)
Definition toCents (a : number) : number :=
  Math.round (a * Num.of_Z 100)%num.

(** The account-status contribution as the specification words it. *)
Definition specStatusContribution (s : string) : Z :=
  if bool_decide (s = "Paid") || bool_decide (s = "Completed") then 5
  else if bool_decide (s = "Active") then 3
  else if bool_decide (s = "Defaulted") then -10
  else if bool_decide (s = "Pending") then 1
  else 0.

(** The payment-history ratio as the specification words it: paid entries
    over all entries, and 0 for a loan without entries. *)
Definition specPaymentRatio (loan : Loan) : Q :=
  match default [] (paymentHistory loan) with
  | [] => 0%Q
  | h => (inject_Z (Z.of_nat (length (List.filter LoanRoutes.isPaid h)))
          / inject_Z (Z.of_nat (length h)))%Q
  end.

Definition Qsum (l : list Q) : Q := foldr Qplus 0%Q l.

Definition mean (l : list Q) : Q :=
  (Qsum l / inject_Z (Z.of_nat (length l)))%Q.

(** A reduction step that adds the share [c a] of each element to a
    finite sum. *)
Definition additive {A : Type} (f : number -> A -> number) (c : A -> Q) : Prop :=
  forall (s : Q) (a : A), exists s', f (Some s) a = Some s' /\ (s' == s + c a)%Q.

(** The share of one loan in [availableCredit] as the report defines it:
    the unused headroom of an Active Credit loan, never negative. *)
Definition specAvailableShare (loan : Loan) : Q :=
  if isActiveCredit loan
  then Qmax 0 (orZero (creditLimit loan) - loanAmount loan)
  else 0%Q.

(** The sum of the amounts of a schedule. *)
Definition scheduleTotal (schedule : list Installment) : number :=
  reduce (fun sum inst => (sum + amount inst)%num) (Num.of_Z 0) schedule.

(** The share of one loan in the [availableCredit] of the second handler:
    the headroom of an Active Credit loan, negative when it is overdrawn. *)
Definition altAvailableShare (loan : Loan) : Q :=
  if isActiveCredit loan
  then (orZero (creditLimit loan) - loanAmount loan)%Q
  else 0%Q.

(** The amount by which an Active Credit loan exceeds its limit. *)
Definition overdraftShare (loan : Loan) : Q :=
  if isActiveCredit loan
  then Qmax 0 (loanAmount loan - orZero (creditLimit loan))
  else 0%Q.

(** The shares of one loan in [totalDebt] and in the total credit. *)
Definition debtShare (loan : Loan) : Q :=
  if isActive loan then loanAmount loan else 0%Q.

Definition creditShare (loan : Loan) : Q :=
  if isActiveCredit loan then orZero (creditLimit loan) else 0%Q.

(** The final score as the specification words it. *)
Definition clamp (lo hi z : Z) : Z := Z.min (Z.max z lo) hi.

Definition specScore (ph cu cm st : Q) : Z :=
  clamp 300 850
    (Qfloor (300 + (ph * (4 # 10) * 550 + cu * (2 # 10) * 550
                    + cm * (1 # 10) * 550 + st * (3 # 10) * 550)
             + (1 # 2))%Q).

(** ** Sample data *)

Definition exampleLoan : Loan :=
  mkLoan 12000%Q "Home" 12 (85 # 10)%Q "General Application" "Pending"
         [] None None None.

Definition zeroRateLoan : Loan :=
  mkLoan 12000%Q "Home" 12 0%Q "General Application" "Pending"
         [] None None None.

Definition shortLoan : Loan :=
  mkLoan 2000%Q "Personal" 2 (85 # 10)%Q "General Application" "Pending"
         [] None None None.

Definition completedLoan : Loan :=
  mkLoan 12000%Q "Car" 12 (85 # 10)%Q "General Application" "Completed"
         [] None None None.

Definition revolvingLoan : Loan :=
  mkLoan 5000%Q "Home" 12 (85 # 10)%Q "General Application" "Active" []
         (Some [EntryObject (Some "paid"); EntryObject (Some "paid");
                EntryObject (Some "late")])
         (Some 10000%Q) (Some "Credit").

Definition premiumLoan : Loan :=
  mkLoan 12000%Q "Home" 12 20%Q "Premium Bank" "Pending" [] (Some []) None None.

Definition termLoan : Loan :=
  mkLoan 8000%Q "Business" 36 (85 # 10)%Q "General Application" "Active"
         [] None None None.

Definition overdrawnLoan : Loan :=
  mkLoan 7000%Q "Personal" 12 (85 # 10)%Q "General Application" "Active" []
         (Some [EntryString "paid"]) (Some 5000%Q) (Some "Credit").

(** A token store with one user token and one admin token. *)
Definition sampleVerify (token : string) : option Auth.Decoded :=
  if bool_decide (token = "user-token") then Some (Auth.mkDecoded "u1" (Some "user"))
  else if bool_decide (token = "admin-token")
       then Some (Auth.mkDecoded "s1" (Some "admin"))
       else None.

Definition sampleStaff (id : string) : option string :=
  if bool_decide (id = "s1") then Some "Staff s1" else None.

Definition sampleUsers (id : string) : option string :=
  if bool_decide (id = "u1") then Some "User u1" else None.

(** Three loans of one user whose payment ratios are 7/8, 1/12 and
    11/12. *)
Definition paidEntry : PaymentEntry := EntryObject (Some "paid").
Definition lateEntry : PaymentEntry := EntryObject (Some "late").

Definition cardLoan : Loan :=
  mkLoan 3000%Q "Home" 12 (85 # 10)%Q "General Application" "Active" []
         (Some (replicate 7 paidEntry ++ [lateEntry]))
         (Some 10000%Q) (Some "Credit").

Definition slowLoan : Loan :=
  mkLoan 5000%Q "Home" 24 (85 # 10)%Q "General Application" "Pending" []
         (Some (paidEntry :: replicate 11 lateEntry)) None None.

Definition steadyLoan : Loan :=
  mkLoan 5000%Q "Home" 36 (85 # 10)%Q "General Application" "Approved" []
         (Some (replicate 11 paidEntry ++ [lateEntry])) None None.

Definition january31 : Date := mkDate 2023 0 31.
Definition march15 : Date := mkDate 2024 2 15.

(** ** Numbers: basic facts *)

Lemma div_Some (x y : Q) :
  ~ (y == 0)%Q -> (Some x / Some y)%num = Some (x / y)%Q.
Proof.
  intros Hy. unfold Num.div.
  destruct (Qeq_bool y 0) eqn:E; [|reflexivity].
  apply Qeq_bool_eq in E. contradiction.
Qed.

Lemma div_by_zero (x y : Q) :
  (y == 0)%Q -> (Some x / Some y)%num = None.
Proof.
  intros Hy. unfold Num.div.
  apply Qeq_bool_iff in Hy. now rewrite Hy.
Qed.

Lemma inject_Z_nonzero (z : Z) : z <> 0 -> ~ (inject_Z z == 0)%Q.
Proof.
  intros Hz E. apply Hz. unfold Qeq in E. simpl in E. lia.
Qed.

(** ** Amortization *)

Section Amortization.

Variable loan : Loan.

Lemma growth_above_one :
(0 < interestRate loan)%Q -> 1 <= loanTerm loan ->
(1 < (1 + monthlyRate (interestRate loan)) ^ loanTerm loan)%Q.
Proof.
intros Hrate Hn. apply Qpower_1_lt; [|lia].
assert (0 < monthlyRate (interestRate loan))%Q; [|lra].
unfold monthlyRate.
apply Qlt_shift_div_l; [reflexivity|].
apply Qlt_shift_div_l; [reflexivity|]. lra.
Qed.

Lemma totalRepayment_defined :
(0 < interestRate loan)%Q -> 1 <= loanTerm loan ->
totalRepayment loan
= Some (annuityPayment (loanAmount loan) (interestRate loan) (loanTerm loan)
        * inject_Z (loanTerm loan))%Q.
Proof.
intros Hrate Hn. pose proof (growth_above_one Hrate Hn) as Hg.
unfold totalRepayment, Num.of_Z.
rewrite !div_Some by (apply inject_Z_nonzero; lia).
change (interestRate loan / inject_Z 100 / inject_Z 12)%Q
  with (monthlyRate (interestRate loan)).
change (inject_Z 1) with 1%Q.
unfold Math.pow, Num.add, Num.lift2.
replace (loanTerm loan <? 0) with false by lia. cbn [andb].
unfold Num.sub, Num.mul, Num.lift2.
rewrite div_Some; [reflexivity|]. lra.
Qed.

Lemma monthlyPayment_defined :
(0 < interestRate loan)%Q -> 1 <= loanTerm loan ->
exists q, monthlyPayment loan = Some q
  /\ (q == annuityPayment (loanAmount loan) (interestRate loan)
                          (loanTerm loan))%Q.
Proof.
intros Hrate Hn.
unfold monthlyPayment. rewrite totalRepayment_defined by assumption.
assert (~ (inject_Z (loanTerm loan) == 0)%Q) as Hnz
  by (apply inject_Z_nonzero; lia).
unfold Num.of_Z. rewrite div_Some by assumption.
eexists; split; [reflexivity|]. now field.
Qed.

End Amortization.

(** C1 (amended).  For every loan within the constraints of the schema
    (amount in [1000, 1000000], term in [1, 60], rate in [1, 25]),
    [monthlyPayment] is a finite number equal to the annuity formula
    [P * r*(1+r)^n / ((1+r)^n - 1)] with [r = interestRate/100/12]; for
    P = 12000, rate 8.5 and n = 12 the monthly payment rounds to 1046.64
    and the total repayment to 12559.65. *)
Theorem monthlyPayment_annuity :
  (forall loan : Loan,
     validatedLoan loan ->
     exists q, monthlyPayment loan = Some q
       /\ (q == annuityPayment (loanAmount loan) (interestRate loan)
                               (loanTerm loan))%Q)
  /\ toCents (monthlyPayment exampleLoan) = Num.of_Z 104664
  /\ toCents (totalRepayment exampleLoan) = Num.of_Z 1255965.
Proof.
  split; [|split].
  - intros loan (_ & Hterm & Hrate).
    apply monthlyPayment_defined; [lra|lia].
  - vm_compute. reflexivity.
  - vm_compute. reflexivity.
Qed.

Lemma monthlyPayment_annuity_witness :
  exists q, monthlyPayment exampleLoan = Some q
    /\ (q == annuityPayment 12000 (85 # 10) 12)%Q.
Proof.
  apply (proj1 monthlyPayment_annuity exampleLoan).
  unfold validatedLoan. repeat split; vm_compute; discriminate.
Defined.

(** C1, as stated, fails on its example: the payment of the example loan
    is below 1046.65, so it rounds neither to 1046.84 nor the total to
    12562.08. *)
Lemma monthlyPayment_example_is_not_1046_84 :
  toCents (monthlyPayment exampleLoan) <> Num.of_Z 104684
  /\ toCents (totalRepayment exampleLoan) <> Num.of_Z 1256208
  /\ exists q, monthlyPayment exampleLoan = Some q
       /\ (0 < interestRate exampleLoan)%Q
       /\ (q < 104665 # 100)%Q.
Proof.
  split; [|split].
  - vm_compute. discriminate.
  - vm_compute. discriminate.
  - eexists. split; [vm_compute; reflexivity|].
    split; vm_compute; reflexivity.
Qed.

(** A zero rate is not special-cased: the formula divides zero by zero. *)
Lemma zero_rate_not_a_number (loan : Loan) :
  (interestRate loan == 0)%Q ->
  totalRepayment loan = None /\ monthlyPayment loan = None.
Proof.
  intros H0.
  assert (totalRepayment loan = None) as Ht.
  { unfold totalRepayment, Num.of_Z.
    rewrite !div_Some by (apply inject_Z_nonzero; lia).
    set (r := (interestRate loan / inject_Z 100 / inject_Z 12)%Q).
    assert (r == 0)%Q as Hr by (unfold r; rewrite H0; reflexivity).
    unfold Math.pow, Num.add, Num.lift2.
    assert (Qeq_bool (inject_Z 1 + r) 0 = false) as Hnz.
    { destruct (Qeq_bool (inject_Z 1 + r) 0) eqn:E; [|reflexivity].
      apply Qeq_bool_eq in E. rewrite Hr in E. discriminate E. }
    rewrite Hnz, andb_false_r.
    unfold Num.sub, Num.mul, Num.lift2.
    rewrite div_by_zero; [reflexivity|].
    rewrite Hr. change (inject_Z 1 + 0)%Q with 1%Q.
    rewrite Qpower_1. reflexivity. }
  split; [assumption|].
  unfold monthlyPayment. now rewrite Ht.
Qed.

(** C2 (amended).  For every validated loan (amount in [1000, 1000000],
    term in [1, 60], rate in [1, 25]) the monthly rate is strictly
    positive, so the zero-rate case cannot arise, and the computation of
    the total repayment and of the monthly payment is total: no division
    by zero occurs and the payment is a positive finite number. *)
Theorem monthlyPayment_total_when_validated (loan : Loan) :
  validatedLoan loan ->
  (0 < monthlyRate (interestRate loan))%Q
  /\ (exists t, totalRepayment loan = Some t)
  /\ (exists q, monthlyPayment loan = Some q /\ (0 < q)%Q).
Proof.
  intros (Hamount & Hterm & Hrate).
  assert (0 < interestRate loan)%Q as Hpos by lra.
  assert (0 < monthlyRate (interestRate loan))%Q as Hr.
  { unfold monthlyRate.
    apply Qlt_shift_div_l; [reflexivity|].
    apply Qlt_shift_div_l; [reflexivity|]. lra. }
  split; [assumption|]. split.
  - rewrite totalRepayment_defined by (assumption || lia). eauto.
  - destruct (monthlyPayment_defined loan Hpos) as (q & Hq & Heq); [lia|].
    exists q. split; [assumption|]. rewrite Heq.
    assert (1 < (1 + monthlyRate (interestRate loan)) ^ loanTerm loan)%Q as Hg
      by (apply growth_above_one; [assumption|lia]).
    unfold annuityPayment.
    set (r := monthlyRate (interestRate loan)) in *.
    apply Qlt_shift_div_l; [lra|].
    rewrite Qmult_0_l.
    apply Qmult_lt_0_compat; [lra|].
    apply Qmult_lt_0_compat; [assumption|lra].
Qed.

Lemma monthlyPayment_total_when_validated_witness :
  (0 < monthlyRate (interestRate exampleLoan))%Q
  /\ (exists t, totalRepayment exampleLoan = Some t)
  /\ (exists q, monthlyPayment exampleLoan = Some q /\ (0 < q)%Q).
Proof.
  apply (monthlyPayment_total_when_validated exampleLoan).
  unfold validatedLoan. simpl.
  repeat split; try lia; try (vm_compute; discriminate).
Defined.

(** C2, as stated, fails at a zero rate: the monthly rate of the loan is
    0 and its monthly payment is not a number, hence not
    [principal / termMonths]. *)
Lemma zero_rate_payment_is_not_principal_over_term :
  (monthlyRate (interestRate zeroRateLoan) == 0)%Q
  /\ monthlyPayment zeroRateLoan = None
  /\ ~ (exists q, monthlyPayment zeroRateLoan = Some q
          /\ (q == loanAmount zeroRateLoan
                   / inject_Z (loanTerm zeroRateLoan))%Q).
Proof.
  assert (monthlyPayment zeroRateLoan = None) as H by (vm_compute; reflexivity).
  split; [reflexivity|]. split; [assumption|].
  intros (q & Hq & _). rewrite H in Hq. discriminate Hq.
Qed.

(** ** Repayment schedule *)

Lemma daysInMonth_bounds (y m : Z) : 28 <= daysInMonth y m <= 31.
Proof.
  unfold daysInMonth.
  repeat match goal with |- context [if ?b then _ else _] => destruct b end; lia.
Qed.

(** The two outcomes of [setMonth]: the day exists in the target month,
    or it overflows by one to three days into the following month. *)
Lemma setMonth_cases (d : Date) (m : Z) :
  let dim := daysInMonth (year d + m / 12) (m mod 12) in
  (day d <= dim
   /\ monthIndex (setMonth d m) = year d * 12 + m
   /\ day (setMonth d m) = day d)
  \/ (dim < day d
      /\ monthIndex (setMonth d m) = year d * 12 + m + 1
      /\ day (setMonth d m) = day d - dim).
Proof.
  intros dim. unfold setMonth. fold dim.
  pose proof (Z.div_mod m 12 ltac:(lia)) as Hm.
  destruct (day d <=? dim) eqn:E.
  - left. apply Z.leb_le in E. unfold monthIndex. simpl. lia.
  - right. apply Z.leb_gt in E. unfold monthIndex. simpl.
    set (k := (year d + m / 12) * 12 + m mod 12 + 1).
    pose proof (Z.div_mod k 12 ltac:(lia)). lia.
Qed.



Lemma validDate_day (d : Date) : validDate d -> 1 <= day d <= 31.
Proof.
  intros (_ & Hd). pose proof (daysInMonth_bounds (year d) (month d)). lia.
Qed.

Section Schedule.

Variables (startDate : Date) (loan : Loan).

Lemma schedule_length :
length (scheduleOf startDate loan) = Z.to_nat (loanTerm loan).
Proof.
unfold scheduleOf, generateRepaymentSchedule. simpl.
now rewrite length_fmap, length_seqZ.
Qed.

Lemma schedule_lookup (i : nat) :
Z.of_nat i < loanTerm loan ->
scheduleOf startDate loan !! i
= Some (mkInstallment
          (setMonth startDate (getMonth startDate + (1 + Z.of_nat i)))
          (monthlyPayment loan) "Pending").
Proof.
intros Hi. unfold scheduleOf, generateRepaymentSchedule. simpl.
rewrite list_lookup_fmap, lookup_seqZ_lt by lia. reflexivity.
Qed.

Lemma schedule_lookup_inv (i : nat) (inst : Installment) :
scheduleOf startDate loan !! i = Some inst ->
Z.of_nat i < loanTerm loan
/\ inst = mkInstallment
            (setMonth startDate (getMonth startDate + (1 + Z.of_nat i)))
            (monthlyPayment loan) "Pending".
Proof.
intros H.
assert (Z.of_nat i < loanTerm loan) as Hi.
{ apply lookup_lt_Some in H. rewrite schedule_length in H. lia. }
split; [assumption|].
rewrite schedule_lookup in H by assumption. congruence.
Qed.

End Schedule.



(** C3, on the code: for a two-month loan created on January 31, 2023
    the schedule has no installment in February: the first due date is
    March 3, two calendar months after the start, and the second is
    March 31, in the same calendar month as the first.  The due dates
    are therefore not the start advanced by [i] calendar months, nor one
    calendar month apart. *)
Lemma schedule_from_january31_skips_february :
  let schedule := scheduleOf january31 shortLoan in
  dueDate <$> schedule = [mkDate 2023 2 3; mkDate 2023 2 31]
  /\ ~ (forall (i : nat) (inst : Installment),
          schedule !! i = Some inst ->
          monthIndex (dueDate inst) = monthIndex january31 + Z.of_nat (S i))
  /\ ~ (forall (i : nat) (a b : Installment),
          schedule !! i = Some a -> schedule !! S i = Some b ->
          monthIndex (dueDate b) = monthIndex (dueDate a) + 1).
Proof.
  split; [vm_compute; reflexivity|]. split.
  - intros H. specialize (H 0%nat _ eq_refl). vm_compute in H. discriminate H.
  - intros H. specialize (H 0%nat _ _ eq_refl eq_refl). vm_compute in H.
    discriminate H.
Qed.

(** ** Reductions over the loans *)

(** Addition of rationals is commutative and associative up to syntactic
    equality of the fractions, not only up to [==]. *)
Lemma Qplus_swap (s a b : Q) : (s + a + b)%Q = (s + b + a)%Q.
Proof.
  destruct s as [sn sd], a as [an ad], b as [bn bd].
  unfold Qplus. simpl. f_equal; [|lia].
  rewrite !Pos2Z.inj_mul. ring.
Qed.

Lemma add_swap (s a b : number) : (s + a + b)%num = (s + b + a)%num.
Proof.
  destruct s, a, b; simpl; try reflexivity.
  f_equal. apply Qplus_swap.
Qed.

Lemma reduce_cons {A B : Type} (f : B -> A -> B) (init : B) (x : A) (l : list A) :
  reduce f init (x :: l) = reduce f (f init x) l.
Proof. reflexivity. Qed.

Lemma reduce_Permutation {A B : Type} (f : B -> A -> B) :
  (forall s a b, f (f s a) b = f (f s b) a) ->
  forall l l', l ≡ₚ l' -> forall init, reduce f init l = reduce f init l'.
Proof.
  intros Hf l l' HP.
  induction HP as [|x l l' _ IH|x y l|l l' l'' _ IH1 _ IH2]; intros init.
  - reflexivity.
  - rewrite !reduce_cons. apply IH.
  - rewrite !reduce_cons. now rewrite Hf.
  - now rewrite IH1.
Qed.

Lemma Qsum_cons (q : Q) (l : list Q) : Qsum (q :: l) = (q + Qsum l)%Q.
Proof. reflexivity. Qed.

Lemma reduce_additive {A : Type} (f : number -> A -> number) (c : A -> Q) :
  additive f c ->
  forall (l : list A) (s : Q),
    exists s', reduce f (Some s) l = Some s' /\ (s' == s + Qsum (c <$> l))%Q.
Proof.
  intros Hf l. induction l as [|a l IH]; intros s.
  - exists s. split; [reflexivity|]. simpl. lra.
  - rewrite reduce_cons. destruct (Hf s a) as (s1 & -> & H1).
    destruct (IH s1) as (s2 & -> & H2).
    exists s2. split; [reflexivity|].
    rewrite H2, H1, fmap_cons, Qsum_cons. lra.
Qed.

Lemma Qsum_nonneg (l : list Q) : Forall (fun q => 0 <= q)%Q l -> (0 <= Qsum l)%Q.
Proof.
  induction 1 as [|q l Hq _ IH]; [apply Qle_refl|].
  rewrite Qsum_cons. lra.
Qed.

Lemma of_nat_nonzero (n : nat) : n <> 0%nat -> ~ (inject_Z (Z.of_nat n) == 0)%Q.
Proof. intros Hn. apply inject_Z_nonzero. lia. Qed.

(** ** The first handler *)

Section FirstHandler.

Import LoanRoutes.

(** *** Order of the loans *)

Lemma paymentHistoryStep_swap s a b :
  paymentHistoryStep (paymentHistoryStep s a) b
  = paymentHistoryStep (paymentHistoryStep s b) a.
Proof. apply add_swap. Qed.

Lemma paymentHistoryValue_Permutation loans loans' :
  loans ≡ₚ loans' -> paymentHistoryValue loans = paymentHistoryValue loans'.
Proof.
  intros HP. unfold paymentHistoryValue.
  rewrite (reduce_Permutation _ paymentHistoryStep_swap _ _ HP).
  now rewrite HP.
Qed.

Lemma totalDebtOf_Permutation loans loans' :
  loans ≡ₚ loans' -> totalDebtOf loans = totalDebtOf loans'.
Proof.
  intros HP. unfold totalDebtOf. apply reduce_Permutation; [|assumption].
  intros s a b. destruct (isActive a), (isActive b); try reflexivity.
  apply add_swap.
Qed.

Lemma totalCreditOf_Permutation loans loans' :
  loans ≡ₚ loans' -> totalCreditOf loans = totalCreditOf loans'.
Proof.
  intros HP. unfold totalCreditOf. apply reduce_Permutation; [|assumption].
  intros s a b. destruct (isActiveCredit a), (isActiveCredit b); try reflexivity.
  apply add_swap.
Qed.

Lemma creditMixValue_Permutation loans loans' :
  loans ≡ₚ loans' -> creditMixValue loans = creditMixValue loans'.
Proof. intros HP. unfold creditMixValue. now rewrite HP. Qed.

Lemma accountStatusValue_Permutation loans loans' :
  loans ≡ₚ loans' -> accountStatusValue loans = accountStatusValue loans'.
Proof.
  intros HP. unfold accountStatusValue. f_equal; [|now rewrite HP].
  apply reduce_Permutation; [|assumption].
  intros s a b. apply add_swap.
Qed.

End FirstHandler.

(** C4 (amended).  With the factor sums taken in exact arithmetic the
    credit score of the first handler does not depend on the order of
    the loans: on any permutation of a list of loans
    [calculateCreditScore] returns the same score.  On the doubles of
    the code the score depends on the order through the four
    accumulated sums only (payment ratios, debt, credit, status
    weights): a permutation on which the four sums come out the same
    scores the same. *)
Theorem calculateCreditScore_order_independent (loans loans' : list Loan) :
  loans ≡ₚ loans' ->
  LoanRoutes.calculateCreditScore loans = LoanRoutes.calculateCreditScore loans'
  /\ (Double.paymentRatioSum loans = Double.paymentRatioSum loans' ->
      Double.totalDebtOf loans = Double.totalDebtOf loans' ->
      Double.totalCreditOf loans = Double.totalCreditOf loans' ->
      Double.statusWeightSum loans = Double.statusWeightSum loans' ->
      Double.calculateCreditScore loans = Double.calculateCreditScore loans').
Proof.
  intros HP. split.
  - unfold LoanRoutes.calculateCreditScore, LoanRoutes.weightedScore,
      LoanRoutes.scoreFactors, LoanRoutes.creditUtilizationValue.
    rewrite (paymentHistoryValue_Permutation _ _ HP),
      (totalDebtOf_Permutation _ _ HP), (totalCreditOf_Permutation _ _ HP),
      (creditMixValue_Permutation _ _ HP), (accountStatusValue_Permutation _ _ HP).
    reflexivity.
  - intros Hratio Hdebt Hcredit Hstatus.
    assert (length loans = length loans') as Hlen by now rewrite HP.
    assert ((list_to_set (loanPurpose <$> loans) : gset string)
            = list_to_set (loanPurpose <$> loans')) as Hmix by now rewrite HP.
    unfold Double.calculateCreditScore, Double.weightedScore, Double.scoreFactors,
      Double.paymentHistoryValue, Double.creditUtilizationValue,
      Double.creditMixValue, Double.accountStatusValue.
    now rewrite Hratio, Hdebt, Hcredit, Hstatus, Hlen, Hmix.
Qed.

Lemma calculateCreditScore_order_independent_witness :
  LoanRoutes.calculateCreditScore [exampleLoan; revolvingLoan; completedLoan]
  = LoanRoutes.calculateCreditScore [revolvingLoan; exampleLoan; completedLoan]
  /\ Double.calculateCreditScore [exampleLoan; revolvingLoan; completedLoan]
     = Double.calculateCreditScore [revolvingLoan; exampleLoan; completedLoan].
Proof.
  destruct (calculateCreditScore_order_independent
              [exampleLoan; revolvingLoan; completedLoan]
              [revolvingLoan; exampleLoan; completedLoan]
              (perm_swap _ _ _)) as [Hexact Hdouble].
  split; [exact Hexact|].
  apply Hdouble; vm_compute; reflexivity.
Defined.

(** ** The factors of the first handler *)

Section Factors.

Import LoanRoutes.

(** The own keys of [statusWeights], one by one. *)
Lemma statusWeight_cases (loan : Loan) :
  statusWeight loan
  = if bool_decide (status loan = "Paid") then 5
    else if bool_decide (status loan = "Active") then 3
    else if bool_decide (status loan = "Defaulted") then -10
    else if bool_decide (status loan = "Pending") then 1
    else 0.
Proof.
  unfold statusWeight, statusWeights.
  do 3 (case_bool_decide as E;
        [rewrite E; reflexivity
        |rewrite lookup_insert_ne by congruence; clear E]).
  case_bool_decide as E; [rewrite E; reflexivity|].
  now rewrite lookup_singleton_ne by congruence.
Qed.

(** The code and the specification give every status but 'Completed'
    the same contribution. *)
Lemma statusWeight_spec (loan : Loan) :
  status loan <> "Completed" ->
  statusWeight loan = specStatusContribution (status loan).
Proof.
  intros Hs. rewrite statusWeight_cases. unfold specStatusContribution.
  rewrite (bool_decide_eq_false_2 _ Hs), orb_false_r. reflexivity.
Qed.

Lemma paymentRatio_spec (loan : Loan) :
  exists q, paymentRatio loan = Some q /\ (q == specPaymentRatio loan)%Q.
Proof.
  unfold paymentRatio, specPaymentRatio, Num.of_nat.
  destruct (default [] (paymentHistory loan)) as [|p h].
  - exists (0 / 1)%Q. split; reflexivity.
  - eexists. split; [|reflexivity].
    apply div_Some. apply of_nat_nonzero. discriminate.
Qed.

Lemma paymentHistoryStep_additive : additive paymentHistoryStep specPaymentRatio.
Proof.
  intros s loan. unfold paymentHistoryStep.
  destruct (paymentRatio_spec loan) as (q & -> & Hq).
  eexists. split; [reflexivity|]. now rewrite Hq.
Qed.

Lemma paymentHistoryValue_mean (loans : list Loan) :
  loans <> [] ->
  exists q, paymentHistoryValue loans = Some q
    /\ (q == mean (specPaymentRatio <$> loans))%Q.
Proof.
  intros Hne. unfold paymentHistoryValue, Num.of_Z.
  destruct (reduce_additive _ _ paymentHistoryStep_additive loans (inject_Z 0))
    as (s & -> & Hs).
  unfold Num.of_nat. rewrite div_Some.
  - eexists. split; [reflexivity|].
    unfold mean. rewrite length_fmap, Hs.
    change (inject_Z 0) with 0%Q. now rewrite Qplus_0_l.
  - apply of_nat_nonzero. now destruct loans.
Qed.

Lemma totalDebtOf_defined (loans : list Loan) :
  exists q, totalDebtOf loans = Some q.
Proof.
  unfold totalDebtOf, Num.of_Z.
  destruct (reduce_additive
              (fun sum loan =>
                 if isActive loan then (sum + Some (loanAmount loan))%num else sum)
              (fun loan => if isActive loan then loanAmount loan else 0%Q))
    with (l := loans) (s := inject_Z 0) as (q & -> & _); [|eauto].
  intros s loan. destruct (isActive loan); eexists; (split; [reflexivity|lra]).
Qed.

Lemma totalCreditOf_defined (loans : list Loan) :
  exists q, totalCreditOf loans = Some q.
Proof.
  unfold totalCreditOf, Num.of_Z.
  destruct (reduce_additive
              (fun sum loan =>
                 if isActiveCredit loan
                 then (sum + Some (orZero (creditLimit loan)))%num else sum)
              (fun loan => if isActiveCredit loan
                           then orZero (creditLimit loan) else 0%Q))
    with (l := loans) (s := inject_Z 0) as (q & -> & _); [|eauto].
  intros s loan. destruct (isActiveCredit loan); eexists; (split; [reflexivity|lra]).
Qed.

Lemma creditUtilizationValue_defined (loans : list Loan) :
  exists q, creditUtilizationValue loans = Some q.
Proof.
  unfold creditUtilizationValue.
  destruct (totalDebtOf_defined loans) as (d & ->).
  destruct (totalCreditOf_defined loans) as (c & ->).
  unfold Num.gt, Num.of_Z.
  destruct (Qle_bool c (inject_Z 0)) eqn:E; cbn [negb].
  - eexists. reflexivity.
  - rewrite div_Some; [eexists; reflexivity|].
    intros H0. rewrite H0 in E. discriminate E.
Qed.


Lemma accountStatusValue_mean (loans : list Loan) :
  loans <> [] ->
  exists q, accountStatusValue loans = Some q
    /\ (q == mean ((fun loan => inject_Z (statusWeight loan)) <$> loans))%Q.
Proof.
  intros Hne. unfold accountStatusValue, Num.of_Z.
  destruct (reduce_additive
              (fun sum loan => (sum + Some (inject_Z (statusWeight loan)))%num)
              (fun loan => inject_Z (statusWeight loan)))
    with (l := loans) (s := inject_Z 0) as (s & -> & Hs).
  { intros s loan. eexists. split; reflexivity. }
  unfold Num.of_nat. rewrite div_Some.
  - eexists. split; [reflexivity|].
    unfold mean. rewrite length_fmap, Hs.
    change (inject_Z 0) with 0%Q. now rewrite Qplus_0_l.
  - apply of_nat_nonzero. now destruct loans.
Qed.

(** *** Rounding, clamping and the bands *)

Lemma max_inject_Z (z lo : Z) :
  Math.max (Some (inject_Z z)) (Num.of_Z lo) = Some (inject_Z (Z.max z lo)).
Proof.
  unfold Math.max, Num.of_Z, Num.lift2. f_equal.
  destruct (Qle_bool (inject_Z z) (inject_Z lo)) eqn:E.
  - apply Qle_bool_iff in E. rewrite <- Zle_Qle in E.
    now rewrite Z.max_r.
  - assert (~ z <= lo) as H.
    { intros H. rewrite Zle_Qle in H. apply Qle_bool_iff in H. congruence. }
    rewrite Z.max_l by lia. reflexivity.
Qed.

Lemma min_inject_Z (z hi : Z) :
  Math.min (Some (inject_Z z)) (Num.of_Z hi) = Some (inject_Z (Z.min z hi)).
Proof.
  unfold Math.min, Num.of_Z, Num.lift2. f_equal.
  destruct (Qle_bool (inject_Z z) (inject_Z hi)) eqn:E.
  - apply Qle_bool_iff in E. rewrite <- Zle_Qle in E.
    now rewrite Z.min_l.
  - assert (~ z <= hi) as H.
    { intros H. rewrite Zle_Qle in H. apply Qle_bool_iff in H. congruence. }
    rewrite Z.min_r by lia. reflexivity.
Qed.

Lemma ge_inject_Z (z k : Z) : Num.ge (Num.of_Z z) (Num.of_Z k) = (k <=? z).
Proof.
  unfold Num.ge, Num.of_Z.
  destruct (k <=? z) eqn:E.
  - apply Z.leb_le in E. apply Qle_bool_iff. now rewrite <- Zle_Qle.
  - apply Z.leb_gt in E.
    destruct (Qle_bool (inject_Z k) (inject_Z z)) eqn:E'; [|reflexivity].
    apply Qle_bool_iff in E'. rewrite <- Zle_Qle in E'. lia.
Qed.

Lemma scoreRangeOf_bands (z : Z) :
  scoreRangeOf (Num.of_Z z)
  = if 720 <=? z then "Excellent"
    else if 650 <=? z then "Good"
    else if 580 <=? z then "Fair"
    else "Poor".
Proof. unfold scoreRangeOf. now rewrite !ge_inject_Z. Qed.

Lemma calculateCreditScore_value (loans : list Loan) (ph cu cm st : Q) :
  paymentHistoryValue loans = Some ph ->
  creditUtilizationValue loans = Some cu ->
  creditMixValue loans = Some cm ->
  accountStatusValue loans = Some st ->
  calculateCreditScore loans = Num.of_Z (specScore ph cu cm st).
Proof.
  intros Hph Hcu Hcm Hst.
  unfold calculateCreditScore, weightedScore, scoreFactors.
  rewrite Hph, Hcu, Hcm, Hst.
  unfold reduce, baseScore, maxScore. cbn [foldl weight value].
  unfold Num.of_Z at 1 2 3 4 5 6 7 8 9 10.
  cbn [Num.add Num.sub Num.mul Num.lift2 Math.round].
  rewrite max_inject_Z, min_inject_Z.
  unfold Num.of_Z, specScore, clamp. do 4 f_equal.
  apply Qfloor_comp.
  change (inject_Z 850 - inject_Z 300)%Q with (850 - 300)%Q.
  change (inject_Z 300) with 300%Q. change (inject_Z 0) with 0%Q.
  ring.
Qed.

End Factors.



(** C6, on the code: a loan whose status is 'Completed' contributes 0 to
    the account-status factor, where the specification gives it +5; the
    factor of a user whose only loan is completed is 0, not 5. *)
Theorem accountStatus_completed_counts_zero :
  LoanRoutes.statusWeight completedLoan = 0
  /\ specStatusContribution (status completedLoan) = 5
  /\ LoanRoutes.accountStatusValue [completedLoan] = Num.of_Z 0
  /\ ~ (exists q, LoanRoutes.accountStatusValue [completedLoan] = Some q
          /\ (q == mean [inject_Z (specStatusContribution (status completedLoan))])%Q).
Proof.
  assert (LoanRoutes.accountStatusValue [completedLoan] = Num.of_Z 0) as H
    by (vm_compute; reflexivity).
  repeat split; try (vm_compute; reflexivity); try assumption.
  intros (q & Hq & Heq). rewrite H in Hq. injection Hq as <-.
  vm_compute in Heq. discriminate Heq.
Qed.



(** C8.  When the user owns no loan, both handlers answer with the
    sentinel report: creditScore 0, scoreRange 'No Credit History', no
    accounts, creditUtilization '0%', totalDebt 0, availableCredit 0 and
    openAccounts 0.  The answer of the first handler is the same whatever
    scoring function it is given, so the weighted formula is not run;
    run on the empty list it would not give a number. *)
Theorem empty_loan_set_yields_sentinel :
  (forall (calculate : list Loan -> number) (now : Date),
     LoanRoutes.creditReportWith calculate now [] = noCreditHistory)
  /\ (forall now : Date, LoanRoutes.creditReport now [] = noCreditHistory)
  /\ LoanRoutesAlt.creditReport [] = noCreditHistory
  /\ creditScore noCreditHistory = Num.of_Z 0
  /\ scoreRange noCreditHistory = "No Credit History"
  /\ accounts noCreditHistory = []
  /\ creditUtilization noCreditHistory = "0%"
  /\ totalDebt noCreditHistory = Num.of_Z 0
  /\ availableCredit noCreditHistory = Num.of_Z 0
  /\ openAccounts noCreditHistory = 0%nat
  /\ LoanRoutes.calculateCreditScore [] = None.
Proof. repeat split. Qed.

(** C9.  The scoring functions of the two handlers are not extensionally
    equal: on the single pending loan of the example the first returns
    586 and the second 300. *)
Theorem scoring_variants_differ :
  exists loans : list Loan,
    LoanRoutes.calculateCreditScore loans = Num.of_Z 586
    /\ LoanRoutesAlt.calculateCreditScore loans = Num.of_Z 300
    /\ LoanRoutes.calculateCreditScore loans
       <> LoanRoutesAlt.calculateCreditScore loans.
Proof.
  exists [exampleLoan].
  assert (LoanRoutes.calculateCreditScore [exampleLoan] = Num.of_Z 586) as H1
    by (vm_compute; reflexivity).
  assert (LoanRoutesAlt.calculateCreditScore [exampleLoan] = Num.of_Z 300) as H2
    by (vm_compute; reflexivity).
  repeat split; try assumption.
  rewrite H1, H2. discriminate.
Qed.

Lemma availableCreditStep_additive :
  additive
    (fun sum loan =>
       if isActiveCredit loan
       then (sum + Math.max (Num.of_Z 0)
                     (Some (orZero (creditLimit loan)) - Some (loanAmount loan)))%num
       else sum)
    specAvailableShare.
Proof.
  intros s loan. unfold specAvailableShare.
  destruct (isActiveCredit loan).
  - eexists. split; [reflexivity|].
    apply Qplus_comp; [reflexivity|].
    change (inject_Z 0) with 0%Q.
    destruct (Qle_bool 0 (orZero (creditLimit loan) - loanAmount loan)) eqn:E.
    + apply Qle_bool_iff in E. now rewrite Q.max_r.
    + rewrite Q.max_l; [reflexivity|].
      destruct (Qlt_le_dec (orZero (creditLimit loan) - loanAmount loan) 0)
        as [Hlt|Hle]; [now apply Qlt_le_weak|].
      apply Qle_bool_iff in Hle. congruence.
  - exists s. split; [reflexivity|]. lra.
Qed.

Lemma specAvailableShare_nonneg (loan : Loan) : (0 <= specAvailableShare loan)%Q.
Proof.
  unfold specAvailableShare. destruct (isActiveCredit loan); [|apply Qle_refl].
  apply Q.le_max_l.
Qed.

(** C10.  For every list of loans the [availableCredit] of the first
    handler is a finite, nonnegative number: it is the sum over the loans
    of a share that is [max(0, creditLimit - loanAmount)] for an Active
    Credit loan and 0 for any other loan, so that no loan contributes a
    negative amount, even with a balance above its credit limit. *)
Theorem availableCredit_nonnegative (loans : list Loan) :
  (exists q, LoanRoutes.availableCreditOf loans = Some q
     /\ (q == Qsum (specAvailableShare <$> loans))%Q
     /\ (0 <= q)%Q)
  /\ Forall (fun loan => 0 <= specAvailableShare loan)%Q loans.
Proof.
  assert (Forall (fun loan => 0 <= specAvailableShare loan)%Q loans) as Hall.
  { apply Forall_forall. intros loan _. apply specAvailableShare_nonneg. }
  split; [|assumption].
  destruct (reduce_additive _ _ availableCreditStep_additive loans (inject_Z 0))
    as (q & Hred & Hq).
  exists q. split; [exact Hred|].
  change (inject_Z 0) with 0%Q in Hq. rewrite Qplus_0_l in Hq.
  split; [assumption|]. rewrite Hq.
  apply Qsum_nonneg. now apply Forall_fmap.
Qed.

(** ** More on the loan model *)

Lemma Qfloor_eq (x : Q) (z : Z) :
  (inject_Z z <= x)%Q -> (x < inject_Z (z + 1))%Q -> Qfloor x = z.
Proof.
  intros Hlo Hhi.
  pose proof (Qfloor_le x) as H1. pose proof (Qlt_floor x) as H2.
  assert (inject_Z (Qfloor x) < inject_Z (z + 1))%Q as H3 by lra.
  assert (inject_Z z < inject_Z (Qfloor x + 1))%Q as H4 by lra.
  rewrite <- Zlt_Qlt in H3, H4. lia.
Qed.

Lemma setLoanAmount_round (val : Q) :
  (Math.round (Some val * Num.of_Z 100) / Num.of_Z 100)%num
  = Some (setLoanAmount val).
Proof. reflexivity. Qed.

Lemma setLoanAmount_near (val : Q) :
  (val - (1 # 200) < setLoanAmount val <= val + (1 # 200))%Q.
Proof.
  unfold setLoanAmount.
  pose proof (Qfloor_le (val * 100 + (1 # 2))) as H1.
  pose proof (Qlt_floor (val * 100 + (1 # 2))) as H2.
  rewrite inject_Z_plus in H2. change (inject_Z 1) with 1%Q in H2.
  set (z := inject_Z (Qfloor (val * 100 + (1 # 2)))) in *.
  split.
  - apply Qlt_shift_div_l; [reflexivity|]. lra.
  - apply Qle_shift_div_r; [reflexivity|]. lra.
Qed.

Lemma setLoanAmount_cents (z : Z) :
  setLoanAmount (inject_Z z / 100) = (inject_Z z / 100)%Q.
Proof.
  unfold setLoanAmount. do 2 f_equal.
  apply Qfloor_eq.
  - assert (inject_Z z / 100 * 100 == inject_Z z)%Q as -> by field. lra.
  - assert (inject_Z z / 100 * 100 == inject_Z z)%Q as -> by field.
    rewrite inject_Z_plus. change (inject_Z 1) with 1%Q. lra.
Qed.

(** X1.  The setter of [loanAmount] returns a whole number of cents that
    is within half a cent of the value given, and it is idempotent: a
    stored amount is left unchanged when it is set again. *)
Theorem setLoanAmount_idempotent (val : Q) :
  (exists cents : Z, setLoanAmount val = (inject_Z cents / 100)%Q)
  /\ (val - (1 # 200) < setLoanAmount val <= val + (1 # 200))%Q
  /\ setLoanAmount (setLoanAmount val) = setLoanAmount val.
Proof.
  split; [eexists; reflexivity|]. split; [apply setLoanAmount_near|].
  unfold setLoanAmount at 2 3. apply setLoanAmount_cents.
Qed.

(** X2.  Rounding to cents keeps an amount inside the range the schema
    accepts: a value in [1000, 1000000] is stored as an amount in
    [1000, 1000000]. *)
Theorem setLoanAmount_in_range (val : Q) :
  (1000 <= val <= 1000000)%Q ->
  (1000 <= setLoanAmount val <= 1000000)%Q.
Proof.
  intros [Hlo Hhi]. unfold setLoanAmount.
  assert (100000 <= Qfloor (val * 100 + (1 # 2)) <= 100000000) as [H1 H2].
  { split.
    - pose proof (Qfloor_resp_le (inject_Z 100000) (val * 100 + (1 # 2))) as H.
      rewrite Qfloor_Z in H. apply H.
      change (inject_Z 100000) with 100000%Q. lra.
    - assert (Qfloor (val * 100 + (1 # 2)) < 100000000 + 1); [|lia].
      rewrite Zlt_Qlt.
      eapply Qle_lt_trans; [apply Qfloor_le|].
      change (inject_Z (100000000 + 1)) with 100000001%Q. lra. }
  rewrite Zle_Qle in H1, H2.
  change (inject_Z 100000) with 100000%Q in H1.
  change (inject_Z 100000000) with 100000000%Q in H2.
  split.
  - apply Qle_shift_div_l; [reflexivity|]. lra.
  - apply Qle_shift_div_r; [reflexivity|]. lra.
Qed.

Lemma setLoanAmount_in_range_witness :
  (1000 <= setLoanAmount (1234567 # 1000) <= 1000000)%Q.
Proof.
  apply setLoanAmount_in_range. split; vm_compute; discriminate.
Defined.

Lemma preSave_fields (modified : bool) (loan : Loan) :
  (loanAmount (preSave modified loan) = loanAmount loan
   /\ loanPurpose (preSave modified loan) = loanPurpose loan
   /\ loanTerm (preSave modified loan) = loanTerm loan
   /\ lenderName (preSave modified loan) = lenderName loan
   /\ status (preSave modified loan) = status loan
   /\ repaymentSchedule (preSave modified loan) = repaymentSchedule loan
   /\ paymentHistory (preSave modified loan) = paymentHistory loan
   /\ creditLimit (preSave modified loan) = creditLimit loan
   /\ loanType (preSave modified loan) = loanType loan)
  /\ (interestRate (preSave modified loan) = interestRate loan
      \/ interestRate (preSave modified loan) = (65 # 10)%Q
      \/ interestRate (preSave modified loan) = (85 # 10)%Q)
  /\ preSave modified (preSave modified loan) = preSave modified loan.
Proof.
  unfold preSave.
  destruct modified; [|repeat split; auto].
  destruct (includes (lenderName loan) "Premium") eqn:E1;
    [|destruct (includes (lenderName loan) "Standard") eqn:E2];
    cbn [withInterestRate lenderName interestRate loanAmount loanPurpose
         loanTerm status repaymentSchedule paymentHistory creditLimit loanType];
    rewrite ?E1, ?E2; repeat split; auto.
Qed.

(** X3.  The pre-save hook changes nothing but the interest rate, which
    it leaves as it was or sets to 6.5 or 8.5, and it is idempotent:
    saving a loan a second time does not change it again. *)
Theorem preSave_only_sets_rate (modified : bool) (loan : Loan) :
  (loanAmount (preSave modified loan) = loanAmount loan
   /\ loanPurpose (preSave modified loan) = loanPurpose loan
   /\ loanTerm (preSave modified loan) = loanTerm loan
   /\ lenderName (preSave modified loan) = lenderName loan
   /\ status (preSave modified loan) = status loan
   /\ repaymentSchedule (preSave modified loan) = repaymentSchedule loan
   /\ paymentHistory (preSave modified loan) = paymentHistory loan
   /\ creditLimit (preSave modified loan) = creditLimit loan
   /\ loanType (preSave modified loan) = loanType loan)
  /\ (interestRate (preSave modified loan) = interestRate loan
      \/ interestRate (preSave modified loan) = (65 # 10)%Q
      \/ interestRate (preSave modified loan) = (85 # 10)%Q)
  /\ preSave modified (preSave modified loan) = preSave modified loan.
Proof. exact (preSave_fields modified loan). Qed.

Lemma preSave_keeps_valid (modified : bool) (loan : Loan) :
  validatedLoan loan -> validatedLoan (preSave modified loan).
Proof.
  intros (Hamount & Hterm & Hrate).
  destruct (preSave_fields modified loan) as ((Ha & _ & Ht & _) & Hr & _).
  unfold validatedLoan. rewrite Ha, Ht.
  repeat split; try tauto;
    destruct Hr as [-> | [-> | ->]]; try tauto; vm_compute; discriminate.
Qed.

(** X4.  The pre-save hook keeps a loan within the constraints of the
    schema: a validated loan is still validated after the hook, whatever
    the lender name. *)
Theorem preSave_keeps_validated (modified : bool) (loan : Loan) :
  validatedLoan loan -> validatedLoan (preSave modified loan).
Proof.
  intros (Hamount & Hterm & Hrate).
  destruct (preSave_fields modified loan)
    as ((Ha & _ & Ht & _) & Hr & _).
  unfold validatedLoan. rewrite Ha, Ht.
  repeat split; try tauto;
    destruct Hr as [-> | [-> | ->]]; try tauto; vm_compute; discriminate.
Qed.

Lemma preSave_keeps_validated_witness :
  validatedLoan (preSave true premiumLoan).
Proof.
  apply preSave_keeps_validated.
  unfold validatedLoan. repeat split; vm_compute; discriminate.
Defined.

(** *** Interest *)

Lemma Qpower_succ_nat (a : Q) (k : nat) :
  ~ (a == 0)%Q -> (a ^ Z.of_nat (S k) == a ^ Z.of_nat k * a)%Q.
Proof.
  intros Ha. rewrite Nat2Z.inj_succ, <- Z.add_1_r.
  rewrite Qpower_plus by assumption. reflexivity.
Qed.

Lemma inject_nat_succ (k : nat) :
  (inject_Z (Z.of_nat (S k)) == inject_Z (Z.of_nat k) + 1)%Q.
Proof.
  rewrite Nat2Z.inj_succ, <- Z.add_1_r, inject_Z_plus. reflexivity.
Qed.

(** [(1+r)^k - 1 <= k r (1+r)^k]: the interest accrued over [k] months
    is at most [k] times the last month's. *)
Lemma growth_bound (r : Q) (k : nat) :
  (0 < r)%Q ->
  ((1 + r) ^ Z.of_nat k - 1
   <= inject_Z (Z.of_nat k) * r * (1 + r) ^ Z.of_nat k)%Q.
Proof.
  intros Hr. induction k as [|k IH].
  - change (inject_Z (Z.of_nat 0)) with 0%Q.
    change ((1 + r) ^ Z.of_nat 0)%Q with 1%Q. lra.
  - rewrite Qpower_succ_nat by lra. rewrite inject_nat_succ.
    assert (1 <= (1 + r) ^ Z.of_nat k)%Q as Hg
      by (apply Qpower_1_le; [lra|lia]).
    assert (0 <= inject_Z (Z.of_nat k))%Q as HN
      by (change 0%Q with (inject_Z 0); rewrite <- Zle_Qle; lia).
    set (g := ((1 + r) ^ Z.of_nat k)%Q) in *.
    set (N := inject_Z (Z.of_nat k)) in *.
    assert (0 <= N * r * g * r)%Q
      by (repeat apply Qmult_le_0_compat; lra).
    assert (0 <= r * g * r)%Q
      by (repeat apply Qmult_le_0_compat; lra).
    lra.
Qed.

Lemma growth_strict (r : Q) (n : Z) :
  (0 < r)%Q -> 1 <= n ->
  ((1 + r) ^ n - 1 < r * (1 + r) ^ n * inject_Z n)%Q.
Proof.
  intros Hr Hn.
  replace n with (Z.of_nat (S (Z.to_nat (n - 1)))) by lia.
  set (k := Z.to_nat (n - 1)).
  pose proof (growth_bound r k Hr) as IH.
  rewrite Qpower_succ_nat by lra. rewrite inject_nat_succ.
  assert (1 <= (1 + r) ^ Z.of_nat k)%Q as Hg
    by (apply Qpower_1_le; [lra|lia]).
  assert (0 <= inject_Z (Z.of_nat k))%Q as HN
    by (change 0%Q with (inject_Z 0); rewrite <- Zle_Qle; lia).
  set (g := ((1 + r) ^ Z.of_nat k)%Q) in *.
  set (N := inject_Z (Z.of_nat k)) in *.
  assert (0 <= N * r * g * r)%Q
    by (repeat apply Qmult_le_0_compat; lra).
  assert (0 < r * g * r)%Q
    by (repeat apply Qmult_lt_0_compat; lra).
  lra.
Qed.

Lemma repayment_bounds (loan : Loan) :
  (0 < loanAmount loan)%Q -> (0 < interestRate loan)%Q -> 1 <= loanTerm loan ->
  exists t q : Q,
    totalRepayment loan = Some t
    /\ monthlyPayment loan = Some q
    /\ (loanAmount loan < t)%Q
    /\ (loanAmount loan * monthlyRate (interestRate loan) < q)%Q
    /\ (q * inject_Z (loanTerm loan) == t)%Q.
Proof.
  intros HP Hrate Hn.
  pose proof (growth_above_one loan Hrate Hn) as Hg.
  assert (0 < monthlyRate (interestRate loan))%Q as Hr.
  { unfold monthlyRate.
    apply Qlt_shift_div_l; [reflexivity|].
    apply Qlt_shift_div_l; [reflexivity|]. lra. }
  pose proof (growth_strict _ _ Hr Hn) as Hs.
  assert (~ (inject_Z (loanTerm loan) == 0)%Q) as Hnz
    by (apply inject_Z_nonzero; lia).
  destruct (monthlyPayment_defined loan Hrate Hn) as (q & Hq & Heq).
  eexists _, q. split; [now apply totalRepayment_defined|].
  split; [assumption|]. rewrite Heq. unfold annuityPayment.
  set (r := monthlyRate (interestRate loan)) in *.
  set (g := ((1 + r) ^ loanTerm loan)%Q) in *.
  set (N := inject_Z (loanTerm loan)) in *.
  set (P := loanAmount loan) in *.
  split; [|split; [|reflexivity]].
  - assert (P * (r * g) / (g - 1) * N == P * (r * g * N) / (g - 1))%Q as ->
      by (field; lra).
    apply Qlt_shift_div_l; [lra|].
    apply Qmult_lt_l; [assumption|]. lra.
  - apply Qlt_shift_div_l; [lra|].
    assert (P * r * (g - 1) == P * (r * (g - 1)))%Q as -> by ring.
    apply Qmult_lt_l; [assumption|].
    assert (0 < r * 1)%Q by lra.
    assert (r * g == r * (g - 1) + r * 1)%Q as -> by ring. lra.
Qed.

(** X5.  For a loan within the constraints of the schema (amount in
    [1000, 1000000], term in [1, 60], rate in [1, 25]), the total
    repayment exceeds the amount borrowed, every monthly payment exceeds
    one month of interest on the full amount, and
    [monthlyPayment * loanTerm] is the total repayment. *)
Theorem repayment_exceeds_principal (loan : Loan) :
  validatedLoan loan ->
  exists t q : Q,
    totalRepayment loan = Some t
    /\ monthlyPayment loan = Some q
    /\ (loanAmount loan < t)%Q
    /\ (loanAmount loan * monthlyRate (interestRate loan) < q)%Q
    /\ (q * inject_Z (loanTerm loan) == t)%Q.
Proof.
  intros (Hamount & Hterm & Hrate).
  apply repayment_bounds; [lra|lra|lia].
Qed.

Lemma repayment_exceeds_principal_witness :
  exists t q : Q,
    totalRepayment exampleLoan = Some t
    /\ monthlyPayment exampleLoan = Some q
    /\ (12000 < t)%Q
    /\ (12000 * monthlyRate (85 # 10) < q)%Q
    /\ (q * 12 == t)%Q.
Proof.
  apply (repayment_exceeds_principal exampleLoan).
  unfold validatedLoan. repeat split; vm_compute; discriminate.
Defined.

(** *** More on the schedule *)

Lemma scheduleTotal_flat (q : Q) (l : list Installment) :
  Forall (fun inst => amount inst = Some q) l ->
  forall s : Q,
    exists s', reduce (fun sum inst => (sum + amount inst)%num) (Some s) l = Some s'
      /\ (s' == s + inject_Z (Z.of_nat (length l)) * q)%Q.
Proof.
  induction 1 as [|inst l Hq _ IH]; intros s.
  - exists s. split; [reflexivity|].
    change (inject_Z (Z.of_nat (length (@nil Installment)))) with 0%Q. lra.
  - rewrite reduce_cons, Hq. cbn [Num.add Num.lift2].
    destruct (IH (s + q)%Q) as (s' & -> & Hs').
    exists s'. split; [reflexivity|].
    rewrite Hs'. cbn [length]. rewrite inject_nat_succ. lra.
Qed.

Lemma schedule_amounts (startDate : Date) (loan : Loan) :
  Forall (fun inst => amount inst = monthlyPayment loan
                      /\ inst_status inst = "Pending")
         (scheduleOf startDate loan).
Proof.
  apply Forall_forall. intros inst Hin.
  apply list_elem_of_lookup in Hin as (i & Hi).
  apply schedule_lookup_inv in Hi as (_ & ->). split; reflexivity.
Qed.

(** X6.  For a loan within the constraints of the schema (amount in
    [1000, 1000000], term in [1, 60], rate in [1, 25]), the amounts of
    the generated schedule add up to the total repayment of the loan. *)
Theorem schedule_adds_up_to_totalRepayment (startDate : Date) (loan : Loan) :
  validatedLoan loan ->
  exists s t : Q,
    scheduleTotal (scheduleOf startDate loan) = Some s
    /\ totalRepayment loan = Some t
    /\ (s == t)%Q.
Proof.
  intros (_ & Hterm & Hvalid).
  assert (0 < interestRate loan)%Q as Hrate by lra.
  assert (1 <= loanTerm loan) as Hn by lia.
  assert (~ (inject_Z (loanTerm loan) == 0)%Q) as Hnz
    by (apply inject_Z_nonzero; lia).
  pose proof (totalRepayment_defined loan Hrate Hn) as Ht.
  assert (monthlyPayment loan
          = Some (annuityPayment (loanAmount loan) (interestRate loan)
                    (loanTerm loan) * inject_Z (loanTerm loan)
                  / inject_Z (loanTerm loan))%Q) as Hq.
  { unfold monthlyPayment. rewrite Ht. unfold Num.of_Z. now apply div_Some. }
  set (q := (annuityPayment (loanAmount loan) (interestRate loan)
               (loanTerm loan) * inject_Z (loanTerm loan)
             / inject_Z (loanTerm loan))%Q) in *.
  assert (Forall (fun inst => amount inst = Some q) (scheduleOf startDate loan))
    as Hall.
  { eapply Forall_impl; [apply schedule_amounts|].
    intros inst [Ha _]. rewrite Ha. exact Hq. }
  destruct (scheduleTotal_flat q _ Hall (inject_Z 0)) as (s & Hs & Heq).
  exists s. eexists. split; [exact Hs|]. split; [exact Ht|].
  rewrite Heq, schedule_length, Z2Nat.id by lia.
  unfold q. change (inject_Z 0) with 0%Q. field. assumption.
Qed.

Lemma schedule_adds_up_to_totalRepayment_witness :
  exists s t : Q,
    scheduleTotal (scheduleOf march15 exampleLoan) = Some s
    /\ totalRepayment exampleLoan = Some t
    /\ (s == t)%Q.
Proof.
  apply (schedule_adds_up_to_totalRepayment march15 exampleLoan).
  unfold validatedLoan. repeat split; vm_compute; discriminate.
Defined.

Lemma setMonth_valid (d : Date) (m : Z) :
  1 <= day d <= 31 -> validDate (setMonth d m).
Proof.
  intros Hday. unfold validDate, setMonth.
  pose proof (daysInMonth_bounds (year d + m / 12) (m mod 12)) as Hdim.
  pose proof (Z.mod_pos_bound m 12 ltac:(lia)) as Hm.
  destruct (day d <=? daysInMonth (year d + m / 12) (m mod 12)) eqn:E.
  - apply Z.leb_le in E. simpl. lia.
  - apply Z.leb_gt in E. simpl.
    set (k := (year d + m / 12) * 12 + m mod 12 + 1).
    pose proof (Z.mod_pos_bound k 12 ltac:(lia)).
    pose proof (daysInMonth_bounds (k / 12) (k mod 12)). lia.
Qed.

(** X7.  From a valid start date, every due date of the generated
    schedule is itself a valid calendar day, lies on a day strictly
    after the start, and installment [i] falls in the [i]-th calendar
    month after the start or in the one after it. *)
Theorem schedule_due_dates_valid (startDate : Date) (loan : Loan) :
  validDate startDate ->
  forall (i : nat) (inst : Installment),
    scheduleOf startDate loan !! i = Some inst ->
    validDate (dueDate inst)
    /\ dateLt startDate (dueDate inst)
    /\ monthIndex startDate + Z.of_nat (S i)
       <= monthIndex (dueDate inst)
       <= monthIndex startDate + Z.of_nat (S i) + 1.
Proof.
  intros Hvalid i inst Hi.
  apply schedule_lookup_inv in Hi as (_ & ->). cbn [dueDate].
  pose proof (validDate_day _ Hvalid) as Hday.
  split; [now apply setMonth_valid|].
  unfold dateLt, monthIndex, getMonth in *.
  destruct (setMonth_cases startDate (month startDate + (1 + Z.of_nat i)))
    as [(? & ? & ?)|(? & ? & ?)];
    unfold monthIndex in *; split; lia.
Qed.

Lemma schedule_due_dates_valid_witness :
  validDate (mkDate 2023 2 3)
  /\ dateLt january31 (mkDate 2023 2 3)
  /\ monthIndex january31 + 1 <= monthIndex (mkDate 2023 2 3)
     <= monthIndex january31 + 1 + 1.
Proof.
  apply (schedule_due_dates_valid january31 shortLoan
           ltac:(unfold validDate; repeat split; vm_compute; discriminate)
           0%nat
           (mkInstallment (mkDate 2023 2 3) (monthlyPayment shortLoan) "Pending")).
  reflexivity.
Defined.


(** X8.  Right after the schedule of a loan with a term of at least one
    month is generated, the next payment that the loan routes report is
    the first installment: pending, for the monthly payment, due one
    [setMonth] step after the start. *)
Theorem nextPayment_after_generation (startDate : Date) (loan : Loan) :
  1 <= loanTerm loan ->
  LoanRoutes.nextPayment (generateRepaymentSchedule startDate loan)
  = Some (mkInstallment (setMonth startDate (getMonth startDate + 1))
                        (monthlyPayment loan) "Pending")
  /\ LoanRoutes.nextPaymentDate (generateRepaymentSchedule startDate loan)
     = Some (setMonth startDate (getMonth startDate + 1)).
Proof.
  intros Hn.
  assert (LoanRoutes.nextPayment (generateRepaymentSchedule startDate loan)
          = Some (mkInstallment (setMonth startDate (getMonth startDate + 1))
                                (monthlyPayment loan) "Pending")) as H.
  { unfold LoanRoutes.nextPayment, generateRepaymentSchedule.
    cbn [repaymentSchedule].
    rewrite seqZ_cons by lia. reflexivity. }
  split; [exact H|].
  unfold LoanRoutes.nextPaymentDate. rewrite H. reflexivity.
Qed.

Lemma nextPayment_after_generation_witness :
  LoanRoutes.nextPayment (generateRepaymentSchedule january31 shortLoan)
  = Some (mkInstallment (setMonth january31 (getMonth january31 + 1))
                        (monthlyPayment shortLoan) "Pending")
  /\ LoanRoutes.nextPaymentDate (generateRepaymentSchedule january31 shortLoan)
     = Some (setMonth january31 (getMonth january31 + 1)).
Proof.
  apply (nextPayment_after_generation january31 shortLoan).
  simpl. lia.
Defined.

(** ** Saving a loan *)

Lemma monthlyPayment_ext (a b : Loan) :
  loanAmount a = loanAmount b -> interestRate a = interestRate b ->
  loanTerm a = loanTerm b -> monthlyPayment a = monthlyPayment b.
Proof.
  intros HP Hr Hn. unfold monthlyPayment, totalRepayment.
  now rewrite HP, Hr, Hn.
Qed.

Lemma preSave_schedule (modified : bool) (now : Date) (loan : Loan) :
  repaymentSchedule (preSave modified (generateRepaymentSchedule now loan))
  = scheduleOf now loan.
Proof.
  destruct (preSave_fields modified (generateRepaymentSchedule now loan))
    as ((_ & _ & _ & _ & _ & Hs & _) & _).
  exact Hs.
Qed.

(** X9.  For a loan within the constraints of the schema the generated
    schedule never holds an undefined amount: it has [loanTerm]
    installments, all pending and all for one and the same positive
    finite amount. *)
Theorem validated_schedule_defined (now : Date) (loan : Loan) :
  validatedLoan loan ->
  Z.of_nat (length (scheduleOf now loan)) = loanTerm loan
  /\ exists q : Q, (0 < q)%Q
       /\ Forall (fun inst => amount inst = Some q /\ inst_status inst = "Pending")
                 (scheduleOf now loan).
Proof.
  intros (Hamount & Hterm & Hrate).
  split; [rewrite schedule_length; lia|].
  destruct (repayment_bounds loan) as (t & q & _ & Hq & _ & Hlow & _);
    [lra|lra|lia|].
  exists q. split.
  - eapply Qle_lt_trans; [|exact Hlow].
    apply Qmult_le_0_compat; [lra|].
    unfold monthlyRate.
    apply Qle_shift_div_l; [reflexivity|].
    apply Qle_shift_div_l; [reflexivity|]. lra.
  - eapply Forall_impl; [apply schedule_amounts|].
    intros inst [Ha Hs]. rewrite Ha, Hq. split; [reflexivity|assumption].
Qed.

Lemma validated_schedule_defined_witness :
  Z.of_nat (length (scheduleOf march15 exampleLoan)) = 12
  /\ exists q : Q, (0 < q)%Q
       /\ Forall (fun inst => amount inst = Some q /\ inst_status inst = "Pending")
                 (scheduleOf march15 exampleLoan).
Proof.
  apply (validated_schedule_defined march15 exampleLoan).
  unfold validatedLoan. repeat split; vm_compute; discriminate.
Defined.

(** X10.  The pre-save hook, run on a loan of the schema's range after
    its schedule was generated, leaves the schedule as generated and the
    loan within the schema's range; when the lender name was not
    modified, or contains neither 'Premium' nor 'Standard', the rate is
    kept as well, and every installment of the saved loan carries the
    monthly payment of the saved loan. *)
Theorem saved_schedule_consistent (modified : bool) (now : Date) (loan : Loan) :
  validatedLoan loan ->
  modified = false
  \/ (includes (lenderName loan) "Premium" = false
      /\ includes (lenderName loan) "Standard" = false) ->
  let saved := preSave modified (generateRepaymentSchedule now loan) in
  validatedLoan saved
  /\ repaymentSchedule saved = scheduleOf now loan
  /\ interestRate saved = interestRate loan
  /\ Forall (fun inst => amount inst = monthlyPayment saved)
            (repaymentSchedule saved).
Proof.
  intros Hvalid Hkeep saved.
  assert (saved = generateRepaymentSchedule now loan) as Hsaved.
  { unfold saved, preSave. destruct Hkeep as [->|[Hp Hs]]; [reflexivity|].
    cbn [generateRepaymentSchedule lenderName]. rewrite Hp, Hs.
    now destruct modified. }
  rewrite Hsaved.
  split; [exact Hvalid|]. split; [reflexivity|]. split; [reflexivity|].
  eapply Forall_impl; [apply schedule_amounts|].
  intros inst [Ha _]. rewrite Ha. now apply monthlyPayment_ext.
Qed.

Lemma saved_schedule_consistent_witness :
  let saved := preSave true (generateRepaymentSchedule march15 exampleLoan) in
  validatedLoan saved
  /\ repaymentSchedule saved = scheduleOf march15 exampleLoan
  /\ interestRate saved = interestRate exampleLoan
  /\ Forall (fun inst => amount inst = monthlyPayment saved)
            (repaymentSchedule saved).
Proof.
  apply (saved_schedule_consistent true march15 exampleLoan).
  - unfold validatedLoan. repeat split; vm_compute; discriminate.
  - right. split; vm_compute; reflexivity.
Defined.

(** X11.  When the pre-save hook runs with a modified lender name that
    contains 'Premium' on a loan of the schema's range whose schedule
    was already generated, as on the first save of an application, it
    replaces the rate only: the loan is saved with the rate 6.5, within
    the schema's range, while every installment of its schedule still
    carries the monthly payment at the rate the loan had before. *)
Theorem premium_hook_overrides_rate (now : Date) (loan : Loan) :
  validatedLoan loan ->
  includes (lenderName loan) "Premium" = true ->
  let saved := preSave true (generateRepaymentSchedule now loan) in
  validatedLoan saved
  /\ interestRate saved = (65 # 10)%Q
  /\ repaymentSchedule saved = scheduleOf now loan
  /\ Forall (fun inst => amount inst = monthlyPayment loan)
            (repaymentSchedule saved).
Proof.
  intros Hvalid Hp saved.
  split; [apply preSave_keeps_valid; exact Hvalid|].
  split.
  { unfold saved, preSave. cbn [generateRepaymentSchedule lenderName].
    rewrite Hp. reflexivity. }
  split; [apply preSave_schedule|].
  unfold saved. rewrite preSave_schedule.
  eapply Forall_impl; [apply schedule_amounts|].
  intros inst [Ha _]. exact Ha.
Qed.

Lemma premium_hook_overrides_rate_witness :
  let saved := preSave true (generateRepaymentSchedule march15 premiumLoan) in
  validatedLoan saved
  /\ interestRate saved = (65 # 10)%Q
  /\ repaymentSchedule saved = scheduleOf march15 premiumLoan
  /\ Forall (fun inst => amount inst = monthlyPayment premiumLoan)
            (repaymentSchedule saved).
Proof.
  apply (premium_hook_overrides_rate march15 premiumLoan).
  - unfold validatedLoan. repeat split; vm_compute; discriminate.
  - vm_compute. reflexivity.
Defined.

(** ** The loans of a user *)

Lemma filter_length_le {A : Type} (f : A -> bool) (l : list A) :
  (length (List.filter f l) <= length l)%nat.
Proof.
  induction l as [|x l IH]; [reflexivity|].
  simpl. destruct (f x); simpl; lia.
Qed.

(** Rounding a share of a nonempty whole to a percentage. *)
Lemma round_percentage (paid total : nat) :
  (0 < total)%nat -> (paid <= total)%nat ->
  exists z : Z,
    Math.round (Num.of_nat paid / Num.of_nat total * Num.of_Z 100)%num = Num.of_Z z
    /\ 0 <= z <= 100
    /\ (paid = 0%nat -> z = 0)
    /\ (paid = total -> z = 100).
Proof.
  intros Htotal Hle. unfold Num.of_nat.
  assert (0 < inject_Z (Z.of_nat total))%Q as Ht
    by (change 0%Q with (inject_Z 0); rewrite <- Zlt_Qlt; lia).
  assert (0 <= inject_Z (Z.of_nat paid) <= inject_Z (Z.of_nat total))%Q as [Hp0 Hp1]
    by (change 0%Q with (inject_Z 0); rewrite <- !Zle_Qle; lia).
  rewrite div_Some by lra.
  set (p := inject_Z (Z.of_nat paid)) in *.
  set (t := inject_Z (Z.of_nat total)) in *.
  assert (0 <= p / t <= 1)%Q as [Hr0 Hr1].
  { split.
    - apply Qle_shift_div_l; [assumption|]. lra.
    - apply Qle_shift_div_r; [assumption|]. lra. }
  eexists. split; [reflexivity|].
  change (inject_Z 100) with 100%Q.
  split; [|split].
  - split.
    + pose proof (Qfloor_resp_le 0 (p / t * 100 + (1 # 2))) as H.
      apply H. lra.
    + pose proof (Qfloor_resp_le (p / t * 100 + (1 # 2)) (201 # 2)) as H.
      change (Qfloor (201 # 2)) with 100 in H. apply H. lra.
  - intros H0. apply Qfloor_eq.
    + change (inject_Z 0) with 0%Q. lra.
    + assert (p == 0)%Q as Hp by (unfold p; rewrite H0; reflexivity).
      change (inject_Z (0 + 1)) with 1%Q. rewrite Hp.
      unfold Qdiv. rewrite !Qmult_0_l. reflexivity.
  - intros Hall. apply Qfloor_eq.
    + assert (p / t == 1)%Q as ->
        by (unfold p, t; rewrite Hall; field; fold t; lra).
      vm_compute. discriminate.
    + assert (p / t == 1)%Q as ->
        by (unfold p, t; rewrite Hall; field; fold t; lra).
      vm_compute. reflexivity.
Qed.

(** X12.  The payment percentage of an enhanced loan is a whole number
    between 0 and 100 in both routes files; it is 0 for a loan without
    payment history or without a paid entry, and 100 when every entry of
    a nonempty history is paid. *)
Theorem paymentPercentage_bounds (loan : Loan) :
  (exists z : Z,
     LoanRoutes.paymentPercentage loan = Num.of_Z z
     /\ 0 <= z <= 100
     /\ (LoanRoutes.paidPayments loan = 0%nat -> z = 0)
     /\ ((0 < LoanRoutes.totalPayments loan)%nat
         /\ LoanRoutes.paidPayments loan = LoanRoutes.totalPayments loan -> z = 100))
  /\ (exists z : Z,
        LoanRoutesAlt.paymentPercentage loan = Num.of_Z z
        /\ 0 <= z <= 100
        /\ (LoanRoutesAlt.paidPayments loan = 0%nat -> z = 0)
        /\ ((0 < LoanRoutes.totalPayments loan)%nat
            /\ LoanRoutesAlt.paidPayments loan = LoanRoutes.totalPayments loan
            -> z = 100)).
Proof.
  assert (LoanRoutes.paidPayments loan <= LoanRoutes.totalPayments loan)%nat as H1.
  { unfold LoanRoutes.paidPayments, LoanRoutes.totalPayments.
    destruct (paymentHistory loan); [apply filter_length_le|lia]. }
  assert (LoanRoutesAlt.paidPayments loan <= LoanRoutes.totalPayments loan)%nat as H2.
  { unfold LoanRoutesAlt.paidPayments, LoanRoutes.totalPayments.
    destruct (paymentHistory loan); [apply filter_length_le|lia]. }
  unfold LoanRoutes.paymentPercentage, LoanRoutesAlt.paymentPercentage.
  destruct (0 <? LoanRoutes.totalPayments loan)%nat eqn:E.
  - apply Nat.ltb_lt in E.
    destruct (round_percentage _ _ E H1) as (z1 & -> & ? & ? & ?).
    destruct (round_percentage _ _ E H2) as (z2 & -> & ? & ? & ?).
    split; [exists z1|exists z2]; repeat split; try tauto; lia.
  - apply Nat.ltb_ge in E.
    split; exists 0; repeat split; try lia.
Qed.

Lemma paymentPercentage_bounds_witness :
  exists z : Z,
    LoanRoutes.paymentPercentage exampleLoan = Num.of_Z z /\ z = 0.
Proof.
  destruct (paymentPercentage_bounds exampleLoan) as ((z & Hz & _ & H0 & _) & _).
  exists z. split; [exact Hz|]. apply H0. reflexivity.
Defined.

(** ** The second handler *)

Lemma Qsum_fmap_plus {A : Type} (f g h : A -> Q) (l : list A) :
  (forall a, f a == g a + h a)%Q ->
  (Qsum (f <$> l) == Qsum (g <$> l) + Qsum (h <$> l))%Q.
Proof.
  intros Hf. induction l as [|a l IH]; [reflexivity|].
  rewrite !fmap_cons, !Qsum_cons, IH, Hf. ring.
Qed.

Lemma Qsum_fmap_nonneg {A : Type} (f : A -> Q) (l : list A) :
  (forall a, 0 <= f a)%Q -> (0 <= Qsum (f <$> l))%Q.
Proof.
  intros Hf. apply Qsum_nonneg, Forall_fmap, Forall_forall. intros a _. apply Hf.
Qed.

Lemma altAvailableCreditStep_additive :
  additive
    (fun sum loan =>
       if isActiveCredit loan
       then (sum + Some (orZero (creditLimit loan)) - Some (loanAmount loan))%num
       else sum)
    altAvailableShare.
Proof.
  intros s loan. unfold altAvailableShare.
  destruct (isActiveCredit loan); eexists; (split; [reflexivity|]);
    cbn [Num.add Num.sub Num.lift2]; ring.
Qed.

Lemma available_share_split (loan : Loan) :
  (specAvailableShare loan == altAvailableShare loan + overdraftShare loan)%Q.
Proof.
  unfold specAvailableShare, altAvailableShare, overdraftShare.
  destruct (isActiveCredit loan); [|reflexivity].
  set (x := (orZero (creditLimit loan) - loanAmount loan)%Q).
  assert (loanAmount loan - orZero (creditLimit loan) == - x)%Q as ->
    by (unfold x; ring).
  destruct (Qlt_le_dec x 0) as [Hneg|Hpos].
  - rewrite (Q.max_l 0 x) by lra. rewrite (Q.max_r 0 (- x)) by lra. ring.
  - rewrite (Q.max_r 0 x) by lra. rewrite (Q.max_l 0 (- x)) by lra. ring.
Qed.

Lemma overdraftShare_nonneg (loan : Loan) : (0 <= overdraftShare loan)%Q.
Proof.
  unfold overdraftShare. destruct (isActiveCredit loan); [|apply Qle_refl].
  apply Q.le_max_l.
Qed.

(** X13.  The [availableCredit] of the second handler is the plain sum
    of [creditLimit - loanAmount] over the Active Credit loans, so an
    overdrawn loan lowers it; the [availableCredit] of the first handler
    exceeds it by exactly the sum of the overdrafts and is never smaller. *)
Theorem availableCredit_of_the_two_handlers (loans : list Loan) :
  exists a b : Q,
    LoanRoutes.availableCreditOf loans = Some a
    /\ LoanRoutesAlt.availableCreditOf loans = Some b
    /\ (b == Qsum (altAvailableShare <$> loans))%Q
    /\ (a == b + Qsum (overdraftShare <$> loans))%Q
    /\ (b <= a)%Q.
Proof.
  destruct (reduce_additive _ _ availableCreditStep_additive loans (inject_Z 0))
    as (a & Ha & Hsum).
  destruct (reduce_additive _ _ altAvailableCreditStep_additive loans (inject_Z 0))
    as (b & Hb & Hbsum).
  change (inject_Z 0) with 0%Q in Hsum, Hbsum.
  rewrite Qplus_0_l in Hsum, Hbsum.
  exists a, b. split; [exact Ha|]. split; [exact Hb|]. split; [exact Hbsum|].
  assert (a == b + Qsum (overdraftShare <$> loans))%Q as Hsplit.
  { rewrite Hsum, Hbsum. apply Qsum_fmap_plus, available_share_split. }
  split; [exact Hsplit|].
  pose proof (Qsum_fmap_nonneg overdraftShare loans overdraftShare_nonneg). lra.
Qed.

Lemma orOne_nonzero (n : nat) : orOne n <> 0%nat.
Proof. destruct n; discriminate. Qed.

Lemma altPaymentHistoryStep_additive :
  additive LoanRoutesAlt.paymentHistoryStep
    (fun loan =>
       inject_Z (Z.of_nat (length (List.filter LoanRoutesAlt.isPaid
                                     (default [] (paymentHistory loan)))))
       / inject_Z (Z.of_nat (orOne (length (default [] (paymentHistory loan))))))%Q.
Proof.
  intros s loan. unfold LoanRoutesAlt.paymentHistoryStep, Num.of_nat.
  rewrite div_Some by (apply of_nat_nonzero, orOne_nonzero).
  eexists. split; reflexivity.
Qed.

Lemma round_clamped (x : number) :
  (exists q, x = Some q) ->
  exists z : Z,
    Math.min (Math.max (Math.round x) (Num.of_Z 300)) (Num.of_Z 850) = Num.of_Z z
    /\ 300 <= z <= 850.
Proof.
  intros (q & ->). cbn [Math.round].
  rewrite max_inject_Z, min_inject_Z.
  eexists. split; [reflexivity|]. lia.
Qed.

(** X14.  The scoring function of the second handler always returns a
    whole number: 0 for the empty list, which it guards itself, and a
    score between 300 and 850 for every other list of loans. *)
Theorem alt_calculateCreditScore_bounds (loans : list Loan) :
  exists z : Z,
    LoanRoutesAlt.calculateCreditScore loans = Num.of_Z z
    /\ ((loans = [] /\ z = 0) \/ (loans <> [] /\ 300 <= z <= 850)).
Proof.
  unfold LoanRoutesAlt.calculateCreditScore.
  case_bool_decide as Hlen.
  { exists 0. split; [reflexivity|]. left. split; [|reflexivity].
    now destruct loans. }
  assert (loans <> []) as Hne by (intros ->; apply Hlen; reflexivity).
  cbv zeta.
  destruct (reduce_additive _ _ altPaymentHistoryStep_additive loans (inject_Z 0))
    as (ph & Hph & _).
  change (Some (inject_Z 0)) with (Num.of_Z 0) in Hph. rewrite Hph.
  destruct (creditUtilizationValue_defined loans) as (cu & Hcu).
  unfold LoanRoutes.creditUtilizationValue in Hcu. cbv zeta in Hcu. rewrite Hcu.
  unfold Num.of_nat at 1. rewrite div_Some by now apply of_nat_nonzero.
  destruct (round_clamped
    (Some (ph / inject_Z (Z.of_nat (length loans)))%Q * Num.of_Z 400
     + Some cu * Num.of_Z 200
     + Num.of_nat (size (list_to_set (loanPurpose <$> loans) : gset string))
       * Num.of_Z 10
     + (Num.of_nat (LoanRoutesAlt.countStatus "Paid" loans) * Num.of_Z 5
        + Num.of_nat (LoanRoutesAlt.countStatus "Active" loans) * Num.of_Z 3
        - Num.of_nat (LoanRoutesAlt.countStatus "Defaulted" loans) * Num.of_Z 10))%num)
    as (z & Hz & Hbounds).
  { eexists. reflexivity. }
  exists z. split; [exact Hz|]. right. split; assumption.
Qed.


(** ** Utilization and the factors *)

Lemma round_percent (x : Q) :
  (0 <= x <= 1)%Q -> 0 <= Qfloor (x * 100 + (1 # 2)) <= 100.
Proof.
  intros [H0 H1]. split.
  - pose proof (Qfloor_resp_le 0 (x * 100 + (1 # 2))) as H. apply H. lra.
  - pose proof (Qfloor_resp_le (x * 100 + (1 # 2)) (201 # 2)) as H.
    change (Qfloor (201 # 2)) with 100 in H. apply H. lra.
Qed.

Lemma totalDebtOf_sum (loans : list Loan) :
  exists d, LoanRoutes.totalDebtOf loans = Some d
    /\ (d == Qsum (debtShare <$> loans))%Q.
Proof.
  unfold LoanRoutes.totalDebtOf, Num.of_Z.
  destruct (reduce_additive
              (fun sum loan =>
                 if isActive loan then (sum + Some (loanAmount loan))%num else sum)
              debtShare)
    with (l := loans) (s := inject_Z 0) as (d & Hd & Hsum).
  { intros s loan. unfold debtShare.
    destruct (isActive loan); eexists; (split; [reflexivity|lra]). }
  exists d. split; [exact Hd|].
  change (inject_Z 0) with 0%Q in Hsum. now rewrite Qplus_0_l in Hsum.
Qed.

Lemma availableCreditOf_sum (loans : list Loan) :
  exists a, LoanRoutes.availableCreditOf loans = Some a
    /\ (a == Qsum (specAvailableShare <$> loans))%Q /\ (0 <= a)%Q.
Proof.
  destruct (reduce_additive _ _ availableCreditStep_additive loans (inject_Z 0))
    as (a & Ha & Hsum).
  change (inject_Z 0) with 0%Q in Hsum. rewrite Qplus_0_l in Hsum.
  exists a. split; [exact Ha|]. split; [exact Hsum|].
  rewrite Hsum. apply Qsum_fmap_nonneg, specAvailableShare_nonneg.
Qed.

Lemma gt_zero (q : Q) : Num.gt (Some q) (Num.of_Z 0) = true <-> (0 < q)%Q.
Proof.
  unfold Num.gt, Num.of_Z. change (inject_Z 0) with 0%Q.
  destruct (Qle_bool q 0) eqn:E; cbn [negb].
  - apply Qle_bool_iff in E. split; [discriminate|lra].
  - split; [intros _|reflexivity].
    destruct (Qlt_le_dec 0 q) as [H|H]; [assumption|].
    apply Qle_bool_iff in H. congruence.
Qed.

Lemma creditUtilizationOf_percent (d a : Q) :
  (0 <= a)%Q ->
  exists z : Z, 0 <= z <= 100
    /\ LoanRoutes.creditUtilizationOf (Some d) (Some a) = pretty z +:+ "%"
    /\ ((0 < d)%Q -> z = Qfloor (d / (d + a) * 100 + (1 # 2))).
Proof.
  intros Ha. unfold LoanRoutes.creditUtilizationOf.
  destruct (Num.gt (Some d) (Num.of_Z 0)) eqn:E.
  - apply gt_zero in E.
    cbn [Num.add Num.lift2]. unfold Num.of_Z.
    rewrite div_Some by lra.
    cbn [Num.mul Num.lift2 Math.round numberToString].
    rewrite Qfloor_Z. change (inject_Z 100) with 100%Q.
    eexists. split; [|split; [reflexivity|reflexivity]].
    apply round_percent. split.
    + apply Qle_shift_div_l; lra.
    + apply Qle_shift_div_r; lra.
  - exists 0. split; [lia|]. split; [reflexivity|].
    intros Hd. apply gt_zero in Hd. congruence.
Qed.

(** X16.  The credit utilization that the first handler reports is
    always a whole percentage between 0% and 100%, for every list of
    loans: the report never shows a negative, larger or undefined
    percentage. *)
Theorem creditUtilization_is_a_percentage (now : Date) (loans : list Loan) :
  exists z : Z, 0 <= z <= 100
    /\ creditUtilization (LoanRoutes.creditReport now loans) = pretty z +:+ "%".
Proof.
  unfold LoanRoutes.creditReport, LoanRoutes.creditReportWith.
  case_bool_decide.
  { exists 0. split; [lia|reflexivity]. }
  cbn [creditUtilization].
  destruct (totalDebtOf_sum loans) as (d & -> & _).
  destruct (availableCreditOf_sum loans) as (a & -> & _ & Ha).
  destruct (creditUtilizationOf_percent d a Ha) as (z & Hz & Heq & _).
  exists z. split; assumption.
Qed.

Lemma Qsum_zero {A : Type} (f : A -> Q) (l : list A) :
  Forall (fun a => f a == 0)%Q l -> (Qsum (f <$> l) == 0)%Q.
Proof.
  induction 1 as [|a l Ha _ IH]; [reflexivity|].
  rewrite fmap_cons, Qsum_cons, Ha, IH. reflexivity.
Qed.

(** X17.  For a user with positive debt and no Active Credit loan, the
    two handlers disagree on the utilization: the first reports '100%',
    the second, which only looks at the available credit, reports
    '0%'. *)
Theorem creditUtilization_without_credit_lines
    (now : Date) (loans : list Loan) (d : Q) :
  Forall (fun loan => isActiveCredit loan = false) loans ->
  LoanRoutes.totalDebtOf loans = Some d -> (0 < d)%Q ->
  creditUtilization (LoanRoutes.creditReport now loans) = "100%"
  /\ creditUtilization (LoanRoutesAlt.creditReport loans) = "0%".
Proof.
  intros Hnone Hd Hpos.
  assert (length loans <> 0%nat) as Hne.
  { destruct loans; [|discriminate].
    injection Hd as <-. vm_compute in Hpos. discriminate Hpos. }
  unfold LoanRoutes.creditReport, LoanRoutes.creditReportWith,
    LoanRoutesAlt.creditReport.
  rewrite (bool_decide_eq_false_2 _ Hne). cbn [creditUtilization].
  rewrite Hd. split.
  - destruct (availableCreditOf_sum loans) as (a & -> & Hsum & Ha).
    destruct (creditUtilizationOf_percent d a Ha) as (z & _ & -> & Hz).
    assert (a == 0)%Q as Ha0.
    { rewrite Hsum. apply Qsum_zero.
      eapply Forall_impl; [exact Hnone|].
      intros loan H. unfold specAvailableShare. now rewrite H. }
    rewrite (Hz Hpos).
    assert (d / (d + a) * 100 + (1 # 2) == 201 # 2)%Q as ->
      by (rewrite Ha0; field; lra).
    reflexivity.
  - destruct (reduce_additive _ _ altAvailableCreditStep_additive loans (inject_Z 0))
      as (b & Hb & Hsum).
    change (inject_Z 0) with 0%Q in Hsum. rewrite Qplus_0_l in Hsum.
    change (LoanRoutesAlt.availableCreditOf loans = Some b) in Hb. rewrite Hb.
    assert (b == 0)%Q as Hb0.
    { rewrite Hsum. apply Qsum_zero.
      eapply Forall_impl; [exact Hnone|].
      intros loan H. unfold altAvailableShare. now rewrite H. }
    unfold LoanRoutesAlt.creditUtilizationOf.
    destruct (Num.gt (Some b) (Num.of_Z 0)) eqn:E; [|reflexivity].
    apply gt_zero in E. lra.
Qed.

Lemma creditUtilization_without_credit_lines_witness :
  creditUtilization (LoanRoutes.creditReport march15 [termLoan; exampleLoan]) = "100%"
  /\ creditUtilization (LoanRoutesAlt.creditReport [termLoan; exampleLoan]) = "0%".
Proof.
  apply (creditUtilization_without_credit_lines march15 [termLoan; exampleLoan] 8000).
  - repeat constructor.
  - reflexivity.
  - reflexivity.
Defined.

Lemma Qsum_bounds (lo hi : Q) (l : list Q) :
  Forall (fun q => lo <= q <= hi)%Q l ->
  (inject_Z (Z.of_nat (length l)) * lo <= Qsum l
   <= inject_Z (Z.of_nat (length l)) * hi)%Q.
Proof.
  induction 1 as [|q l [Hlo Hhi] _ [IHlo IHhi]].
  - change (inject_Z (Z.of_nat (length (@nil Q)))) with 0%Q.
    change (Qsum []) with 0%Q. lra.
  - cbn [length]. rewrite inject_nat_succ, Qsum_cons. lra.
Qed.

Lemma mean_bounds (lo hi : Q) (l : list Q) :
  l <> [] -> Forall (fun q => lo <= q <= hi)%Q l -> (lo <= mean l <= hi)%Q.
Proof.
  intros Hne Hall. destruct (Qsum_bounds lo hi l Hall) as [Hlo Hhi].
  assert (0 < inject_Z (Z.of_nat (length l)))%Q as Hlen.
  { change 0%Q with (inject_Z 0). rewrite <- Zlt_Qlt.
    destruct l; [contradiction|simpl; lia]. }
  unfold mean. split.
  - apply Qle_shift_div_l; [assumption|]. lra.
  - apply Qle_shift_div_r; [assumption|]. lra.
Qed.

Lemma specPaymentRatio_range (loan : Loan) : (0 <= specPaymentRatio loan <= 1)%Q.
Proof.
  unfold specPaymentRatio.
  destruct (default [] (paymentHistory loan)) as [|p h] eqn:E; [lra|].
  pose proof (filter_length_le LoanRoutes.isPaid (p :: h)) as Hle.
  assert (0 < inject_Z (Z.of_nat (length (p :: h))))%Q as Ht
    by (change 0%Q with (inject_Z 0); rewrite <- Zlt_Qlt; simpl; lia).
  assert (0 <= inject_Z (Z.of_nat (length (List.filter LoanRoutes.isPaid (p :: h))))
          <= inject_Z (Z.of_nat (length (p :: h))))%Q as [H0 H1]
    by (change 0%Q with (inject_Z 0); rewrite <- !Zle_Qle; lia).
  split.
  - apply Qle_shift_div_l; [assumption|]. lra.
  - apply Qle_shift_div_r; [assumption|]. lra.
Qed.

Lemma statusWeight_range (loan : Loan) : -10 <= LoanRoutes.statusWeight loan <= 5.
Proof.
  rewrite statusWeight_cases.
  repeat match goal with |- context [if ?b then _ else _] => destruct b end; lia.
Qed.

Lemma creditUtilizationValue_range (loans : list Loan) :
  exists cu, LoanRoutes.creditUtilizationValue loans = Some cu
    /\ (0 <= cu)%Q
    /\ (Forall (fun loan => 0 <= loanAmount loan)%Q loans -> (cu <= 1)%Q).
Proof.
  unfold LoanRoutes.creditUtilizationValue.
  destruct (totalDebtOf_sum loans) as (d & -> & Hd).
  destruct (totalCreditOf_defined loans) as (c & ->).
  assert (Forall (fun loan => 0 <= loanAmount loan)%Q loans -> (0 <= d)%Q) as Hdpos.
  { intros Hall. rewrite Hd. apply Qsum_nonneg, Forall_fmap.
    eapply Forall_impl; [exact Hall|].
    intros loan H. unfold compose, debtShare. cbn beta in *.
    destruct (isActive loan); lra. }
  assert (forall u : Q,
            exists cu, (Num.of_Z 1 - Math.min (Some u) (Num.of_Z 1))%num = Some cu
              /\ (0 <= cu)%Q /\ ((0 <= u)%Q -> (cu <= 1)%Q)) as Hmin.
  { intros u. unfold Math.min, Num.of_Z, Num.sub, Num.lift2.
    change (inject_Z 1) with 1%Q.
    destruct (Qle_bool u 1) eqn:E; eexists; (split; [reflexivity|]).
    - apply Qle_bool_iff in E. split; [lra|intros; lra].
    - split; [lra|intros; lra]. }
  destruct (Num.gt (Some c) (Num.of_Z 0)) eqn:E.
  - apply gt_zero in E. unfold Num.div at 1.
    destruct (Qeq_bool c 0) eqn:E0; [apply Qeq_bool_eq in E0; lra|].
    destruct (Hmin (d / c)%Q) as (cu & -> & H0 & H1).
    exists cu. split; [reflexivity|]. split; [assumption|].
    intros Hall. apply H1. apply Qle_shift_div_l; [assumption|].
    specialize (Hdpos Hall). lra.
  - destruct (Hmin (inject_Z 0)) as (cu & Hcu & H0 & H1).
    exists cu. split; [exact Hcu|]. split; [assumption|].
    intros _. apply H1. apply Qle_refl.
Qed.

Lemma purposes_size (loans : list Loan) :
  loans <> [] ->
  (1 <= size (list_to_set (loanPurpose <$> loans) : gset string) <= length loans)%nat.
Proof.
  intros Hne. split.
  - destruct loans as [|loan loans]; [contradiction|].
    rewrite fmap_cons, list_to_set_cons.
    assert (size ({[loanPurpose loan]} ∪ list_to_set (loanPurpose <$> loans)
                  : gset string) <> 0%nat); [|lia].
    apply size_non_empty_iff. set_solver.
  - clear Hne. induction loans as [|loan loans IH]; [reflexivity|].
    rewrite fmap_cons, list_to_set_cons, size_union_alt, size_singleton.
    cbn [length].
    assert (size ((list_to_set (loanPurpose <$> loans) : gset string)
                  ∖ {[loanPurpose loan]})
            <= size (list_to_set (loanPurpose <$> loans) : gset string))%nat
      as Hsub by (apply subseteq_size, subseteq_difference_l; reflexivity).
    lia.
Qed.

(** X18.  For a non-empty list of loans with nonnegative amounts the four
    factors of the first handler are finite and lie in fixed ranges: the
    payment-history and utilization factors in [0, 1], the credit-mix
    factor between 1/5 and a fifth of the number of loans, and the
    account-status factor, which is not normalised, in [-10, 5]. *)
Theorem score_factor_ranges (loans : list Loan) :
  loans <> [] -> Forall (fun loan => 0 <= loanAmount loan)%Q loans ->
  exists ph cu cm st : Q,
    LoanRoutes.paymentHistoryValue loans = Some ph
    /\ LoanRoutes.creditUtilizationValue loans = Some cu
    /\ LoanRoutes.creditMixValue loans = Some cm
    /\ LoanRoutes.accountStatusValue loans = Some st
    /\ (0 <= ph <= 1)%Q
    /\ (0 <= cu <= 1)%Q
    /\ ((1 # 5) <= cm <= inject_Z (Z.of_nat (length loans)) / 5)%Q
    /\ (-10 <= st <= 5)%Q.
Proof.
  intros Hne Hamounts.
  destruct (paymentHistoryValue_mean loans Hne) as (ph & Hph & Hphm).
  destruct (creditUtilizationValue_range loans) as (cu & Hcu & Hcu0 & Hcu1).
  destruct (accountStatusValue_mean loans Hne) as (st & Hst & Hstm).
  exists ph, cu. eexists. exists st.
  split; [exact Hph|]. split; [exact Hcu|]. split; [reflexivity|].
  split; [exact Hst|]. split; [|split; [|split]].
  - rewrite Hphm. apply mean_bounds.
    + destruct loans; [contradiction|discriminate].
    + apply Forall_fmap, Forall_forall. intros loan _.
      apply specPaymentRatio_range.
  - split; [assumption|now apply Hcu1].
  - destruct (purposes_size loans Hne) as [H1 H2].
    change (inject_Z 5) with 5%Q.
    assert (1 <= inject_Z (Z.of_nat (size (list_to_set (loanPurpose <$> loans)
                                           : gset string)))
            <= inject_Z (Z.of_nat (length loans)))%Q as [H3 H4]
      by (change 1%Q with (inject_Z 1); rewrite <- !Zle_Qle; lia).
    split.
    + apply Qle_shift_div_l; [reflexivity|]. lra.
    + apply Qle_shift_div_r; [reflexivity|].
      assert (inject_Z (Z.of_nat (length loans)) / 5 * 5
              == inject_Z (Z.of_nat (length loans)))%Q as -> by field.
      assumption.
  - rewrite Hstm. apply mean_bounds.
    + destruct loans; [contradiction|discriminate].
    + apply Forall_fmap, Forall_forall. intros loan _.
      pose proof (statusWeight_range loan) as [H1 H2].
      rewrite Zle_Qle in H1, H2. split; assumption.
Qed.

Lemma score_factor_ranges_witness :
  exists ph cu cm st : Q,
    LoanRoutes.paymentHistoryValue [revolvingLoan; completedLoan] = Some ph
    /\ LoanRoutes.creditUtilizationValue [revolvingLoan; completedLoan] = Some cu
    /\ LoanRoutes.creditMixValue [revolvingLoan; completedLoan] = Some cm
    /\ LoanRoutes.accountStatusValue [revolvingLoan; completedLoan] = Some st
    /\ (0 <= ph <= 1)%Q
    /\ (0 <= cu <= 1)%Q
    /\ ((1 # 5) <= cm <= inject_Z (Z.of_nat 2) / 5)%Q
    /\ (-10 <= st <= 5)%Q.
Proof.
  apply (score_factor_ranges [revolvingLoan; completedLoan]).
  - discriminate.
  - repeat constructor; vm_compute; discriminate.
Defined.

(** X19.  A user all of whose loans are Active is always rated
    'Excellent' by the first handler, whatever the payment history and
    the debts: the unnormalised status weight 3 alone contributes 495
    points, so the score is at least 795. *)
Theorem all_active_is_excellent (now : Date) (loans : list Loan) :
  loans <> [] -> Forall (fun loan => status loan = "Active") loans ->
  exists z : Z,
    LoanRoutes.calculateCreditScore loans = Num.of_Z z
    /\ 795 <= z <= 850
    /\ scoreRange (LoanRoutes.creditReport now loans) = "Excellent".
Proof.
  intros Hne Hactive.
  destruct (paymentHistoryValue_mean loans Hne) as (ph & Hph & Hphm).
  destruct (creditUtilizationValue_range loans) as (cu & Hcu & Hcu0 & _).
  destruct (accountStatusValue_mean loans Hne) as (st & Hst & Hstm).
  assert (0 <= ph)%Q as Hph0.
  { rewrite Hphm. apply (mean_bounds 0 1).
    - destruct loans; [contradiction|discriminate].
    - apply Forall_fmap, Forall_forall. intros loan _.
      apply specPaymentRatio_range. }
  assert (3 <= st)%Q as Hst3.
  { rewrite Hstm. apply (mean_bounds 3 3).
    - destruct loans; [contradiction|discriminate].
    - apply Forall_fmap. eapply Forall_impl; [exact Hactive|].
      intros loan Hs. unfold compose. cbn beta.
      rewrite statusWeight_cases, Hs.
      split; vm_compute; discriminate. }
  destruct (purposes_size loans Hne) as [Hmix _].
  set (cm := (inject_Z (Z.of_nat (size (list_to_set (loanPurpose <$> loans)
                                        : gset string))) / inject_Z 5)%Q).
  assert (LoanRoutes.creditMixValue loans = Some cm) as Hcm by reflexivity.
  assert (0 <= cm)%Q as Hcm0.
  { unfold cm. apply Qle_shift_div_l; [reflexivity|].
    rewrite Qmult_0_l. change 0%Q with (inject_Z 0). rewrite <- Zle_Qle. lia. }
  pose proof (calculateCreditScore_value loans ph cu cm st Hph Hcu Hcm Hst) as Hscore.
  assert (795 <= specScore ph cu cm st <= 850) as Hz.
  { unfold specScore, clamp.
    assert (795 <= Qfloor (300 + (ph * (4 # 10) * 550 + cu * (2 # 10) * 550
                                  + cm * (1 # 10) * 550 + st * (3 # 10) * 550)
                           + (1 # 2))); [|lia].
    pose proof (Qfloor_resp_le (inject_Z 795)
                  (300 + (ph * (4 # 10) * 550 + cu * (2 # 10) * 550
                          + cm * (1 # 10) * 550 + st * (3 # 10) * 550)
                   + (1 # 2))) as H.
    rewrite Qfloor_Z in H. apply H.
    change (inject_Z 795) with 795%Q. lra. }
  exists (specScore ph cu cm st). split; [exact Hscore|]. split; [exact Hz|].
  unfold LoanRoutes.creditReport, LoanRoutes.creditReportWith.
  rewrite bool_decide_eq_false_2 by (destruct loans; [contradiction|discriminate]).
  cbn [scoreRange]. rewrite Hscore, scoreRangeOf_bands.
  replace (720 <=? specScore ph cu cm st) with true by lia. reflexivity.
Qed.

Lemma all_active_is_excellent_witness :
  exists z : Z,
    LoanRoutes.calculateCreditScore [termLoan; overdrawnLoan] = Num.of_Z z
    /\ 795 <= z <= 850
    /\ scoreRange (LoanRoutes.creditReport march15 [termLoan; overdrawnLoan])
       = "Excellent".
Proof.
  apply (all_active_is_excellent march15 [termLoan; overdrawnLoan]).
  - discriminate.
  - repeat constructor.
Defined.

(** ** Authentication *)

Lemma prefix_empty (s : string) : String.prefix "" s = true.
Proof. destruct s; reflexivity. Qed.

Lemma substring_all (s : string) : String.substring 0 (String.length s) s = s.
Proof. induction s as [|c s IH]; [reflexivity|]. simpl. now rewrite IH. Qed.

Lemma replaceFirst_bearer (token : string) :
  Auth.replaceFirst "Bearer " "" ("Bearer " +:+ token) = token.
Proof.
  unfold Auth.replaceFirst. simpl.
  change ("" +:+ token) with token.
  rewrite prefix_empty. simpl.
  change ("" +:+ token) with token.
  rewrite Nat.sub_0_r. apply substring_all.
Qed.

(** X20.  The token is the Authorization header without its first
    'Bearer ': a header 'Bearer t' yields the token [t], a header that
    does not contain 'Bearer ' is taken whole as the token, and a missing
    header or the bare 'Bearer ' is answered 401 'No token provided'
    without the token being verified. *)
Theorem bearer_scheme_is_optional :
  (forall token : string,
     Auth.replaceFirst "Bearer " "" ("Bearer " +:+ token) = token)
  /\ (forall header : string,
        includes header "Bearer " = false ->
        Auth.replaceFirst "Bearer " "" header = header)
  /\ (forall (Account : Type) (verify : string -> option Auth.Decoded)
             (findStaff findUser : string -> option Account)
             (user : option Account) (role : option string),
        Auth.authenticate verify findStaff findUser (Auth.mkRequest None user role)
        = Auth.Send (Auth.mkResponse 401 false
                       "No token provided. Authorization denied.")
        /\ Auth.authenticate verify findStaff findUser
             (Auth.mkRequest (Some "Bearer ") user role)
           = Auth.Send (Auth.mkResponse 401 false
                          "No token provided. Authorization denied.")).
Proof.
  split; [apply replaceFirst_bearer|]. split.
  - intros header H. unfold Auth.replaceFirst. unfold includes in H.
    destruct (String.index 0 "Bearer " header); [discriminate|reflexivity].
  - intros. split; reflexivity.
Qed.

Lemma bearer_scheme_is_optional_witness :
  Auth.replaceFirst "Bearer " "" "user-token" = "user-token".
Proof.
  apply (proj1 (proj2 bearer_scheme_is_optional)).
  vm_compute. reflexivity.
Defined.

Section Authenticated.

Variable Account : Type.
Variable verify : string -> option Auth.Decoded.
Variables findStaff findUser : string -> option Account.

Lemma authenticate_Next (req req' : Auth.Request Account) :
  Auth.authenticate verify findStaff findUser req = Auth.Next req' ->
  exists (header : string) (decoded : Auth.Decoded) (account : Account),
    Auth.authorization req = Some header
    /\ Auth.replaceFirst "Bearer " "" header <> ""
    /\ verify (Auth.replaceFirst "Bearer " "" header) = Some decoded
    /\ (if bool_decide (Auth.decoded_role decoded = Some "admin")
        then findStaff (Auth.decoded_id decoded)
        else findUser (Auth.decoded_id decoded)) = Some account
    /\ req' = Auth.mkRequest (Some header) (Some account)
                             (Auth.decoded_role decoded).
Proof.
  unfold Auth.authenticate.
  destruct (Auth.authorization req) as [header|]; [|discriminate].
  cbn [fmap option_fmap option_map].
  destruct (Auth.replaceFirst "Bearer " "" header) as [|c token] eqn:Et;
    [discriminate|].
  destruct (verify (String c token)) as [decoded|] eqn:Ev; [|discriminate].
  destruct (if bool_decide (Auth.decoded_role decoded = Some "admin")
            then findStaff (Auth.decoded_id decoded)
            else findUser (Auth.decoded_id decoded)) as [account|] eqn:Ea;
    [|discriminate].
  intros H. injection H as <-.
  exists header, decoded, account.
  split; [reflexivity|]. split; [rewrite Et; discriminate|].
  split; [rewrite Et; exact Ev|]. split; [exact Ea|reflexivity].
Qed.

Lemma authenticate_Send (req : Auth.Request Account) (res : Auth.Response) :
  Auth.authenticate verify findStaff findUser req = Auth.Send res ->
  Auth.res_status res = 401%nat /\ Auth.res_success res = false.
Proof.
  unfold Auth.authenticate.
  destruct (Auth.authorization req) as [header|];
    cbn [fmap option_fmap option_map].
  - destruct (Auth.replaceFirst "Bearer " "" header) as [|c token].
    + intros H. injection H as <-. split; reflexivity.
    + destruct (verify (String c token)) as [decoded|].
      * destruct (if bool_decide (Auth.decoded_role decoded = Some "admin")
                  then findStaff (Auth.decoded_id decoded)
                  else findUser (Auth.decoded_id decoded)).
        -- discriminate.
        -- intros H. injection H as <-. split; reflexivity.
      * intros H. injection H as <-. split; reflexivity.
  - intros H. injection H as <-. split; reflexivity.
Qed.

End Authenticated.

(** X21.  [authenticate] calls [next()] only for a request whose header
    holds a nonempty token that verifies and whose account exists in the
    collection of the token's role: the request passed on carries that
    account and the role of the token.  Every other request is answered
    with status 401 and [success: false]. *)
Theorem authenticate_passes_only_verified
    (Account : Type) (verify : string -> option Auth.Decoded)
    (findStaff findUser : string -> option Account) (req : Auth.Request Account) :
  (forall req' : Auth.Request Account,
     Auth.authenticate verify findStaff findUser req = Auth.Next req' ->
     exists (header : string) (decoded : Auth.Decoded) (account : Account),
       Auth.authorization req = Some header
       /\ Auth.replaceFirst "Bearer " "" header <> ""
       /\ verify (Auth.replaceFirst "Bearer " "" header) = Some decoded
       /\ (if bool_decide (Auth.decoded_role decoded = Some "admin")
           then findStaff (Auth.decoded_id decoded)
           else findUser (Auth.decoded_id decoded)) = Some account
       /\ req' = Auth.mkRequest (Some header) (Some account)
                                (Auth.decoded_role decoded))
  /\ (forall res : Auth.Response,
        Auth.authenticate verify findStaff findUser req = Auth.Send res ->
        Auth.res_status res = 401%nat /\ Auth.res_success res = false).
Proof.
  split.
  - intros req'. apply authenticate_Next.
  - intros res. apply authenticate_Send.
Qed.

Lemma authenticate_passes_only_verified_witness :
  (exists (header : string) (decoded : Auth.Decoded) (account : string),
     Some "Bearer user-token" = Some header
     /\ Auth.replaceFirst "Bearer " "" header <> ""
     /\ sampleVerify (Auth.replaceFirst "Bearer " "" header) = Some decoded
     /\ (if bool_decide (Auth.decoded_role decoded = Some "admin")
         then sampleStaff (Auth.decoded_id decoded)
         else sampleUsers (Auth.decoded_id decoded)) = Some account
     /\ Auth.mkRequest (Some "Bearer user-token") (Some "User u1") (Some "user")
        = Auth.mkRequest (Some header) (Some account) (Auth.decoded_role decoded))
  /\ (Auth.res_status (Auth.mkResponse 401 false "Invalid or expired token.") = 401%nat
      /\ Auth.res_success (Auth.mkResponse 401 false "Invalid or expired token.")
         = false).
Proof.
  split.
  - apply (proj1 (authenticate_passes_only_verified string sampleVerify
                    sampleStaff sampleUsers
                    (Auth.mkRequest (Some "Bearer user-token") None None))).
    vm_compute. reflexivity.
  - apply (proj2 (authenticate_passes_only_verified string sampleVerify
                    sampleStaff sampleUsers
                    (Auth.mkRequest (Some "Bearer stale-token") None None))).
    vm_compute. reflexivity.
Defined.

(** X22.  Behind [authenticate], the guard [adminOnly] lets a request
    through only when its token has the role 'admin' and its account was
    found in the Staff collection, and [userOnly] only when the role is
    'user' and the account was found in the User collection; no request
    passes both guards, and a token of any other role is refused by
    both. *)
Theorem guards_after_authenticate
    (Account : Type) (verify : string -> option Auth.Decoded)
    (findStaff findUser : string -> option Account)
    (req req' : Auth.Request Account) :
  Auth.authenticate verify findStaff findUser req = Auth.Next req' ->
  (Auth.adminOnly req' = Auth.Next req' ->
     Auth.role req' = Some "admin"
     /\ exists decoded, findStaff (Auth.decoded_id decoded) = Auth.user req'
          /\ Auth.decoded_role decoded = Some "admin")
  /\ (Auth.userOnly req' = Auth.Next req' ->
        Auth.role req' = Some "user"
        /\ exists decoded, findUser (Auth.decoded_id decoded) = Auth.user req'
             /\ Auth.decoded_role decoded = Some "user")
  /\ ~ (Auth.adminOnly req' = Auth.Next req' /\ Auth.userOnly req' = Auth.Next req')
  /\ (Auth.role req' <> Some "admin" -> Auth.role req' <> Some "user" ->
        Auth.adminOnly req'
        = Auth.Send (Auth.mkResponse 403 false "Access denied. Admins only.")
        /\ Auth.userOnly req'
           = Auth.Send (Auth.mkResponse 403 false "Access denied. Users only.")).
Proof.
  intros H.
  apply authenticate_Next in H as (header & decoded & account & _ & _ & _ & Ha & ->).
  unfold Auth.adminOnly, Auth.userOnly. cbn [Auth.role Auth.user].
  split; [|split; [|split]].
  - destruct (decide (Auth.decoded_role decoded = Some "admin")) as [E|E].
    + rewrite (bool_decide_eq_true_2 _ E) in Ha |- *. intros _.
      split; [assumption|]. exists decoded. split; assumption.
    + rewrite (bool_decide_eq_false_2 _ E). discriminate.
  - destruct (decide (Auth.decoded_role decoded = Some "user")) as [E|E].
    + rewrite (bool_decide_eq_true_2 _ E). intros _.
      rewrite bool_decide_eq_false_2 in Ha by (rewrite E; discriminate).
      split; [assumption|]. exists decoded. split; assumption.
    + rewrite (bool_decide_eq_false_2 _ E). discriminate.
  - intros [H1 H2].
    case_bool_decide as E1; [|discriminate].
    case_bool_decide as E2; [|discriminate].
    rewrite E1 in E2. discriminate.
  - intros H1 H2.
    rewrite !bool_decide_eq_false_2 by assumption. split; reflexivity.
Qed.

Lemma guards_after_authenticate_witness :
  Auth.role (Auth.mkRequest (Some "Bearer admin-token") (Some "Staff s1") (Some "admin"))
  = Some "admin"
  /\ exists decoded,
       sampleStaff (Auth.decoded_id decoded) = Some "Staff s1"
       /\ Auth.decoded_role decoded = Some "admin".
Proof.
  apply (proj1 (guards_after_authenticate string sampleVerify sampleStaff sampleUsers
                  (Auth.mkRequest (Some "Bearer admin-token") None None)
                  (Auth.mkRequest (Some "Bearer admin-token") (Some "Staff s1")
                                  (Some "admin"))
                  ltac:(vm_compute; reflexivity))).
  vm_compute. reflexivity.
Defined.

(** C4, as stated, fails on the doubles of the code: three loans of one
    user with payment ratios 7/8, 1/12 and 11/12 score 746 in one order
    and 745 with the last two exchanged, because the sum of the ratios
    is 1.875 in the first order (the score is rounded from 745.5) and
    1.8749999999999998 in the second. *)
Lemma score_on_doubles_depends_on_order :
  [cardLoan; slowLoan; steadyLoan] ≡ₚ [cardLoan; steadyLoan; slowLoan]
  /\ Double.to_Z (Double.calculateCreditScore [cardLoan; slowLoan; steadyLoan])
     = Some 746
  /\ Double.to_Z (Double.calculateCreditScore [cardLoan; steadyLoan; slowLoan])
     = Some 745
  /\ Double.calculateCreditScore [cardLoan; slowLoan; steadyLoan]
     <> Double.calculateCreditScore [cardLoan; steadyLoan; slowLoan].
Proof.
  assert (Double.to_Z (Double.calculateCreditScore [cardLoan; slowLoan; steadyLoan])
          = Some 746) as H1 by (vm_compute; reflexivity).
  assert (Double.to_Z (Double.calculateCreditScore [cardLoan; steadyLoan; slowLoan])
          = Some 745) as H2 by (vm_compute; reflexivity).
  split; [apply perm_skip, perm_swap|].
  split; [exact H1|]. split; [exact H2|].
  intros Heq. rewrite Heq, H2 in H1. discriminate H1.
Qed.
